(** * vdodumpconfig: dump the configuration of a VDO volume

    A shallow embedding of [utils/vdo/user/vdodumpconfig.c].  The program
    parses its command line with [getopt_long], loads the volume read-only
    through [makeVDOFromFile], copies the [VDOConfig] out of the loaded
    [VDO], releases it with [freeVDOFromFile] and prints six fields.

    The embedding is a small exit/state monad over a [World] that carries
    the persisted backing stores and a chronological trace of the
    observable events (writes to the two standard streams and calls into
    the volume library).  The C library routines the program calls
    ([getopt_long], [printf], [errx], [exit]) are modelled next to it.  *)

From Stdlib Require Import ZArith List String Ascii Bool Lia.
Import ListNotations.

Local Open Scope list_scope.
Local Open Scope string_scope.
Local Open Scope Z_scope.

Set Implicit Arguments.

(* ================================================================== *)
(** * Text helpers *)

(** The newline character, written [\n] in the C sources. *)
Definition LF : string := String (ascii_of_nat 10) EmptyString.

(** [strchr(s, c) != NULL] for a character [c] other than NUL. *)
Fixpoint strchr (s : string) (c : ascii) : bool :=
  match s with
  | EmptyString => false
  | String a s' => Ascii.eqb a c || strchr s' c
  end.

(** The part of [s] before the first occurrence of [c] (the whole of [s]
    when [c] does not occur). *)
Fixpoint before_char (c : ascii) (s : string) : string :=
  match s with
  | EmptyString => EmptyString
  | String a s' => if Ascii.eqb a c then EmptyString else String a (before_char c s')
  end.

(** The part of [s] after the last ['/'], as glibc computes
    [program_invocation_short_name] from [argv[0]]. *)
Fixpoint short_name (s : string) : string :=
  match s with
  | EmptyString => EmptyString
  | String a s' =>
      if strchr s' "/" then short_name s'
      else if Ascii.eqb a "/" then s' else s
  end.

(* ================================================================== *)
(** * Decimal conversions of [printf] *)

Definition digit_char (d : Z) : ascii := ascii_of_nat (48 + Z.to_nat d).

(** The digit loop of the conversion: least significant digit first,
    prepended to what has been produced so far, until the quotient is 0
    (a do-while: the value 0 yields one digit). *)
Fixpoint utoa (fuel : nat) (v : Z) (acc : string) : string :=
  match fuel with
  | O => acc
  | S fuel' =>
      let acc' := String (digit_char (v mod 10)) acc in
      if v / 10 =? 0 then acc' else utoa fuel' (v / 10) acc'
  end.

Definition UINT64_MAX : Z := 2 ^ 64 - 1.
Definition INT_MAX : Z := 2 ^ 31 - 1.
Definition INT_MIN : Z := - 2 ^ 31.

(** [%PRIu64]: the argument is taken as a 64-bit unsigned integer; twenty
    digits are enough for every such value. *)
Definition fmt_u64 (v : Z) : string := utoa 20 (v mod 2 ^ 64) EmptyString.

(** [%d]: the argument is an [int]; a negative one is printed with a
    minus sign before the digits of its magnitude. *)
Definition fmt_d (v : Z) : string :=
  if v <? 0 then String "-" (utoa 10 (- v) EmptyString)
  else utoa 10 v EmptyString.

(* ================================================================== *)
(** * Data model *)

(** [VDOConfig] (declared in [types.h], five [BlockCount] fields, each an
    unsigned 64-bit count). *)
Record VDOConfig : Type := mkVDOConfig {
  logicalBlocks : Z;
  physicalBlocks : Z;
  slabSize : Z;
  recoveryJournalSize : Z;
  slabJournalBlocks : Z
}.

Definition is_u64 (v : Z) : Prop := 0 <= v <= UINT64_MAX.

Definition wf_config (c : VDOConfig) : Prop :=
  is_u64 (logicalBlocks c) /\ is_u64 (physicalBlocks c) /\
  is_u64 (slabSize c) /\ is_u64 (recoveryJournalSize c) /\
  is_u64 (slabJournalBlocks c).

(** The loaded volume ([struct VDO] of [vdoInternal.h]); this program
    reads its [config] member and nothing else. *)
Record VDO : Type := mkVDO {
  config : VDOConfig
}.

(** Observable events of one run, in the order they happen. *)
Inductive Event : Type :=
| EvStdout (text : string)
| EvStderr (text : string)
| EvOpenLogger
| EvMakeVDO (filename : string) (readOnly : bool) (result : Z)
| EvReadVDO
| EvFreeVDO.

(** What a trace has written to each of the two standard streams. *)
Fixpoint stdout_of (t : list Event) : string :=
  match t with
  | [] => EmptyString
  | EvStdout s :: t' => s ++ stdout_of t'
  | _ :: t' => stdout_of t'
  end.

Fixpoint stderr_of (t : list Event) : string :=
  match t with
  | [] => EmptyString
  | EvStderr s :: t' => s ++ stderr_of t'
  | _ :: t' => stderr_of t'
  end.

Definition is_stdout (e : Event) : bool :=
  match e with EvStdout _ => true | _ => false end.

Definition is_free (e : Event) : bool :=
  match e with EvFreeVDO => true | _ => false end.

(** A call of [makeVDOFromFile], if the event is one, asked for
    read-only access. *)
Definition opens_read_only (e : Event) : Prop :=
  match e with
  | EvMakeVDO _ readOnly _ => readOnly = true
  | _ => True
  end.

(* ================================================================== *)
(** * GNU [getopt_long]

    The scanner of the C library, after glibc's [_getopt_internal_r].
    Its state ([struct _getopt_data]) holds the index of the next element
    to scan, the rest of the element being scanned and the bounds of the
    non-options that have been skipped; elements of [argv] are permuted so
    that the non-options end up last.  The members [optarg] and [optopt]
    are left out: the program never reads them.  *)

Inductive Ordering : Type := REQUIRE_ORDER | PERMUTE | RETURN_IN_ORDER.

Record getopt_data : Type := mkGetopt {
  optind : nat;
  initialized : bool;
  nextchar : string;
  ordering : Ordering;
  first_nonopt : nat;
  last_nonopt : nat
}.

Definition set_optind (d : getopt_data) (n : nat) : getopt_data :=
  mkGetopt n (initialized d) (nextchar d) (ordering d) (first_nonopt d) (last_nonopt d).
Definition set_nextchar (d : getopt_data) (s : string) : getopt_data :=
  mkGetopt (optind d) (initialized d) s (ordering d) (first_nonopt d) (last_nonopt d).
Definition set_first_nonopt (d : getopt_data) (n : nat) : getopt_data :=
  mkGetopt (optind d) (initialized d) (nextchar d) (ordering d) n (last_nonopt d).
Definition set_last_nonopt (d : getopt_data) (n : nat) : getopt_data :=
  mkGetopt (optind d) (initialized d) (nextchar d) (ordering d) (first_nonopt d) n.

(** The state before the first call: [optind] is 1 and nothing is
    initialized. *)
Definition getopt_start : getopt_data :=
  mkGetopt 1 false EmptyString REQUIRE_ORDER 0 0.

Inductive HasArg : Type := no_argument | required_argument | optional_argument.

(** [struct option]; [flag] tells whether the member is a non-null
    pointer. *)
Record option_ : Type := mkOption {
  name : string;
  has_arg : HasArg;
  flag : bool;
  val : ascii
}.

(** What one call hands back: the returned [int], [argv] as the call left
    it, the new state and the diagnostic it printed, if any. *)
Record getopt_result : Type := mkResult {
  returned : Z;
  argv_after : list string;
  data_after : getopt_data;
  diagnostic : option string
}.

Definition char_code (c : ascii) : Z := Z.of_nat (nat_of_ascii c).

(** [argv[optind][0] != '-' || argv[optind][1] == '\0'] *)
Definition NONOPTION_P (s : string) : bool :=
  match s with
  | String c0 (String _ _) => negb (Ascii.eqb c0 "-")
  | _ => true
  end.

(** Number of non-options at the head of a list of elements. *)
Fixpoint count_nonoptions (l : list string) : nat :=
  match l with
  | a :: l' => if NONOPTION_P a then S (count_nonoptions l') else O
  | [] => O
  end.

(** [exchange]: the non-options in [first_nonopt, last_nonopt) and the
    options in [last_nonopt, optind) trade places. *)
Definition exchange (argv : list string) (d : getopt_data) : list string * getopt_data :=
  let bottom := first_nonopt d in
  let middle := last_nonopt d in
  let top := optind d in
  (firstn bottom argv
     ++ firstn (top - middle) (skipn middle argv)
     ++ firstn (middle - bottom) (skipn bottom argv)
     ++ skipn top argv,
   set_last_nonopt (set_first_nonopt d (bottom + (top - middle))) top)%list%nat.

Definition getopt_initialize (optstring : string) (posixly_correct : bool)
    (d : getopt_data) : getopt_data :=
  let oi := if Nat.eqb (optind d) 0 then 1%nat else optind d in
  mkGetopt oi true EmptyString
    match optstring with
    | String "-" _ => RETURN_IN_ORDER
    | String "+" _ => REQUIRE_ORDER
    | _ => if posixly_correct then REQUIRE_ORDER else PERMUTE
    end
    oi oi.

Definition skip_mode (optstring : string) : string :=
  match optstring with
  | String "-" s | String "+" s => s
  | _ => optstring
  end.

(** Bring the bounds back in range if [optind] was moved back. *)
Definition clamp_nonopts (d : getopt_data) : getopt_data :=
  let d := if (optind d <? last_nonopt d)%nat then set_last_nonopt d (optind d) else d in
  if (optind d <? first_nonopt d)%nat then set_first_nonopt d (optind d) else d.

(** With [PERMUTE]: move the options just scanned before the non-options
    skipped earlier, then skip the non-options that follow. *)
Definition permute_skip (argv : list string) (d : getopt_data) : list string * getopt_data :=
  match ordering d with
  | PERMUTE =>
      let '(argv, d) :=
        if negb (first_nonopt d =? last_nonopt d)%nat && negb (last_nonopt d =? optind d)%nat
        then exchange argv d
        else if negb (last_nonopt d =? optind d)%nat
             then (argv, set_first_nonopt d (optind d))
             else (argv, d) in
      let oi := (optind d + count_nonoptions (skipn (optind d) argv))%nat in
      (argv, set_last_nonopt (set_optind d oi) oi)
  | _ => (argv, d)
  end.

(** The element [--] ends the options: it is skipped, moved before the
    non-options, and everything after it counts as a non-option. *)
Definition skip_dashdash (argv : list string) (d : getopt_data) : list string * getopt_data :=
  let argc := List.length argv in
  if negb (optind d =? argc)%nat && (nth (optind d) argv EmptyString =? "--")%string then
    let d := set_optind d (S (optind d)) in
    let '(argv, d) :=
      if negb (first_nonopt d =? last_nonopt d)%nat && negb (last_nonopt d =? optind d)%nat
      then exchange argv d
      else if (first_nonopt d =? last_nonopt d)%nat
           then (argv, set_first_nonopt d (optind d))
           else (argv, d) in
    (argv, set_optind (set_last_nonopt d argc) argc)
  else (argv, d).

(** The next character of a cluster of short options.  Options that take
    an argument (a [':'] after the letter in [optstring]) and the [-W]
    convention are not modelled: the program declares none. *)
Definition short_option (argv : list string) (optstring : string) (print_errors : bool)
    (d : getopt_data) : getopt_result :=
  match nextchar d with
  | EmptyString => mkResult (-1) argv d None
  | String c rest =>
      let d := set_nextchar d rest in
      let d := match rest with
               | EmptyString => set_optind d (S (optind d))
               | _ => d
               end in
      if negb (strchr optstring c) || Ascii.eqb c ":" || Ascii.eqb c ";" then
        mkResult (char_code "?") argv d
          (if print_errors
           then Some (nth 0 argv EmptyString ++ ": invalid option -- '"
                        ++ String c EmptyString ++ "'" ++ LF)
           else None)
      else mkResult (char_code c) argv d None
  end.

(** The table entry a long option names: an exact match, else the first
    entry the given name abbreviates.  (With several entries glibc goes on
    to tell apart ambiguous abbreviations; the table of this program has a
    single entry.) *)
Definition find_long_option (longopts : list option_) (given : string) : option option_ :=
  match find (fun p => (name p =? given)%string) longopts with
  | Some p => Some p
  | None => find (fun p => prefix given (name p)) longopts
  end.

(** [process_long_option] for an element [--body]; [nextchar] holds
    [body].  A required argument given as the next element is consumed
    without being recorded. *)
Definition process_long_option (argv : list string) (optstring : string)
    (longopts : list option_) (print_errors : bool) (d : getopt_data) : getopt_result :=
  let body := nextchar d in
  let given := before_char "=" body in
  let d' := set_nextchar (set_optind d (S (optind d))) EmptyString in
  let say (s : string) := if print_errors then Some (nth 0 argv EmptyString ++ s ++ LF) else None in
  let deliver (p : option_) (d : getopt_data) :=
    mkResult (if flag p then 0 else char_code (val p)) argv d None in
  match find_long_option longopts given with
  | None =>
      mkResult (char_code "?") argv d' (say (": unrecognized option '--" ++ body ++ "'"))
  | Some p =>
      if strchr body "=" then
        match has_arg p with
        | no_argument =>
            mkResult (char_code "?") argv d'
              (say (": option '--" ++ name p ++ "' doesn't allow an argument"))
        | _ => deliver p d'
        end
      else
        match has_arg p with
        | required_argument =>
            if (optind d' <? List.length argv)%nat
            then deliver p (set_optind d' (S (optind d')))
            else mkResult (char_code (match optstring with String ":" _ => ":" | _ => "?" end))
                   argv d'
                   (say (": option '--" ++ name p ++ "' requires an argument"))
        | _ => deliver p d'
        end
  end.

(** Get past the non-options and the element [--]. *)
Definition next_element (argv : list string) (d : getopt_data) : list string * getopt_data :=
  let '(argv, d) := permute_skip argv (clamp_nonopts d) in
  skip_dashdash argv d.

(** Look at the element [optind] has come to: the end of [argv], a
    non-option that was not passed over, a long option after two dashes,
    or a cluster of short options. *)
Definition take_element (argc : nat) (argv : list string) (optstring : string)
    (longopts : list option_) (print_errors : bool) (d : getopt_data) : getopt_result :=
  if (optind d =? argc)%nat then
    mkResult (-1) argv
      (if negb (first_nonopt d =? last_nonopt d)%nat
       then set_optind d (first_nonopt d) else d)
      None
  else
    let element := nth (optind d) argv EmptyString in
    if NONOPTION_P element then
      match ordering d with
      | REQUIRE_ORDER => mkResult (-1) argv d None
      | _ => mkResult 1 argv (set_optind d (S (optind d))) None
      end
    else
      match element with
      | String _ (String c1 body) =>
          if Ascii.eqb c1 "-"
          then process_long_option argv optstring longopts print_errors
                 (set_nextchar d body)
          else short_option argv optstring print_errors
                 (set_nextchar d (String c1 body))
      | _ => mkResult (-1) argv d None
      end.

(** One call of [getopt_long (argc, argv, optstring, longopts, NULL)] with
    [opterr] at its default of 1. *)
Definition getopt_internal (argv : list string) (optstring0 : string)
    (longopts : list option_) (posixly_correct : bool) (d : getopt_data) : getopt_result :=
  let argc := List.length argv in
  if (argc <? 1)%nat then mkResult (-1) argv d None else
  let d := if (optind d =? 0)%nat || negb (initialized d)
           then getopt_initialize optstring0 posixly_correct d else d in
  let optstring := skip_mode optstring0 in
  let print_errors := match optstring with String ":" _ => false | _ => true end in
  match nextchar d with
  | String _ _ => short_option argv optstring print_errors d
  | EmptyString =>
      let '(argv, d) := next_element argv d in
      take_element argc argv optstring longopts print_errors d
  end.

(* ================================================================== *)
(** * The program *)

Definition usageString : string := "[--help] vdoBacking".

Definition helpString : string :=
  "vdodumpconfig - dump the configuration of a VDO volume from its backing" ++ LF ++
  "                store." ++ LF ++
  LF ++
  "SYNOPSIS" ++ LF ++
  "  vdodumpconfig <vdoBacking>" ++ LF ++
  LF ++
  "DESCRIPTION" ++ LF ++
  "  vdodumpconfig dumps the configuration of a VDO volume, whether or not" ++ LF ++
  "  the VDO is running." ++ LF ++
  LF.

Definition optionString : string := "h".

Definition options : list option_ :=
  [ mkOption "help" no_argument false "h" ].

(** The headers the program includes and that are not part of these
    sources, as an interface: the persisted contents of the backing
    stores, the constants [VDO_SUCCESS] ([statusCodes.h]) and
    [VDO_BLOCK_SIZE] ([constants.h]), and the volume library
    ([vdoVolumeUtils.h]).  [makeVDOFromFile filename readOnly] returns its
    result code and what it stored through the [VDO **] it was given, if
    anything; both calls may act on the backing stores. *)
Class VDOLibrary : Type := {
  Store : Type;
  VDO_SUCCESS : Z;
  VDO_BLOCK_SIZE : Z;
  makeVDOFromFile : string -> bool -> Store -> (Z * option VDO) * Store;
  freeVDOFromFile : VDO -> Store -> Store
}.

Section Program.

Context {L : VDOLibrary}.

(** The process and what surrounds it: the short program name that
    [errx] prints, whether [POSIXLY_CORRECT] is set in the environment
    ([getopt_long] looks it up), the backing stores and the events so
    far. *)
Record World : Type := mkWorld {
  progname : string;
  posixly_correct : bool;
  store : Store;
  trace : list Event
}.

Definition add_event (w : World) (e : Event) : World :=
  mkWorld (progname w) (posixly_correct w) (store w) (trace w ++ [e]).

Definition set_store (w : World) (s : Store) : World :=
  mkWorld (progname w) (posixly_correct w) s (trace w).

(** How a computation ends: it returns to its caller, the process
    exits, a pointer that was never set is dereferenced, or a loop ran
    out of fuel. *)
Inductive Outcome (A : Type) : Type :=
| Returns (a : A) (w : World)
| Exits (status : Z) (w : World)
| Faults (w : World)
| OutOfFuel (w : World).

Arguments Exits {A} status w.
Arguments Faults {A} w.
Arguments OutOfFuel {A} w.

Definition M (A : Type) : Type := World -> Outcome A.

Definition ret {A : Type} (a : A) : M A := fun w => Returns a w.

Definition bind {A B : Type} (m : M A) (k : A -> M B) : M B :=
  fun w =>
    match m w with
    | Returns a w' => k a w'
    | Exits status w' => Exits status w'
    | Faults w' => Faults w'
    | OutOfFuel w' => OutOfFuel w'
    end.

Notation "x <- m ;; k" := (bind m (fun x => k))
  (at level 61, m at next level, right associativity).
Notation "m ;; k" := (bind m (fun _ => k))
  (at level 61, right associativity).

Definition final_world {A : Type} (o : Outcome A) : World :=
  match o with
  | Returns _ w | Exits _ w | Faults w | OutOfFuel w => w
  end.

Definition exit_status {A : Type} (o : Outcome A) : option Z :=
  match o with
  | Exits status _ => Some status
  | _ => None
  end.

(** ** Library calls *)

Definition emit (e : Event) : M unit := fun w => Returns tt (add_event w e).

Definition printf (text : string) : M unit := emit (EvStdout text).

Definition exit (status : Z) : M unit := fun w => Exits status w.

(** [errx]: the short program name, a colon and a space, the message
    and a newline, all on standard error; then [exit]. *)
Definition errx (status : Z) (message : string) : M unit :=
  fun w => (emit (EvStderr (progname w ++ ": " ++ message ++ LF)) ;; exit status) w.

Definition openLogger : M unit := emit EvOpenLogger.

Definition call_makeVDOFromFile (filename : string) (readOnly : bool)
    : M (Z * option VDO) :=
  fun w =>
    let '(r, s) := makeVDOFromFile filename readOnly (store w) in
    Returns r (add_event (set_store w s) (EvMakeVDO filename readOnly (fst r))).

Definition call_freeVDOFromFile (vdo : VDO) : M unit :=
  fun w => Returns tt (add_event (set_store w (freeVDOFromFile vdo (store w))) EvFreeVDO).

(** Reading through the [VDO *]: defined only if the pointer was set. *)
Definition deref (vdo : option VDO) : M VDO :=
  match vdo with
  | Some v => emit EvReadVDO ;; ret v
  | None => fun w => Faults w
  end.

Definition getopt_long (argv : list string) (optstring : string)
    (longopts : list option_) (d : getopt_data) : M getopt_result :=
  fun w =>
    let r := getopt_internal argv optstring longopts (posixly_correct w) d in
    match diagnostic r with
    | Some text => Returns r (add_event w (EvStderr text))
    | None => Returns r w
    end.

(** ** [vdodumpconfig.c] *)

Definition usage (progname : string) : M unit :=
  errx 1 ("Usage: " ++ progname ++ " " ++ usageString ++ LF).

(** The [while] loop of [processArgs]; it hands back [argv] and the
    scanner's state as the last call of [getopt_long] left them.  The
    case ['h'] has no [break]: after [exit] the text falls through to
    the default case. *)
Fixpoint processArgs_loop (fuel : nat) (argv : list string) (d : getopt_data)
    : M (list string * getopt_data) :=
  match fuel with
  | O => fun w => OutOfFuel w
  | S fuel' =>
      r <- getopt_long argv optionString options d ;;
      let c := returned r in
      if c =? -1 then ret (argv_after r, data_after r)
      else if c =? char_code "h" then
        printf helpString ;;
        exit 0 ;;
        usage (nth 0 (argv_after r) EmptyString) ;;
        processArgs_loop fuel' (argv_after r) (data_after r)
      else
        usage (nth 0 (argv_after r) EmptyString) ;;
        processArgs_loop fuel' (argv_after r) (data_after r)
  end.

Definition processArgs (argc : Z) (argv : list string) : M string :=
  r <- processArgs_loop (S (List.length argv)) argv getopt_start ;;
  let '(argv, d) := r in
  (if negb (Z.of_nat (optind d) =? argc - 1)
   then usage (nth 0 argv EmptyString) else ret tt) ;;
  ret (nth (optind d) argv EmptyString).

Definition readVDOConfig (vdoBacking : string) : M VDOConfig :=
  r <- call_makeVDOFromFile vdoBacking true ;;
  let '(result, vdo) := r in
  (if negb (result =? VDO_SUCCESS)
   then errx 1 ("Could not load VDO from '" ++ vdoBacking ++ "'") else ret tt) ;;
  v <- deref vdo ;;
  let config := config v in
  call_freeVDOFromFile v ;;
  ret config.

Definition main (argc : Z) (argv : list string) : M unit :=
  vdoBacking <- processArgs argc argv ;;
  openLogger ;;
  config <- readVDOConfig vdoBacking ;;
  printf ("VDOConfig:" ++ LF) ;;
  printf ("  blockSize: " ++ fmt_d VDO_BLOCK_SIZE ++ LF) ;;
  printf ("  logicalBlocks: " ++ fmt_u64 (logicalBlocks config) ++ LF) ;;
  printf ("  physicalBlocks: " ++ fmt_u64 (physicalBlocks config) ++ LF) ;;
  printf ("  slabSize: " ++ fmt_u64 (slabSize config) ++ LF) ;;
  printf ("  recoveryJournalSize: " ++ fmt_u64 (recoveryJournalSize config) ++ LF) ;;
  printf ("  slabJournalBlocks: " ++ fmt_u64 (slabJournalBlocks config) ++ LF) ;;
  exit 0.

(** One run of the program: the process starts with an empty trace and
    the short name taken from [argv[0]]; [argc] counts [argv]. *)
Definition start (argv : list string) (posix : bool) (s : Store) : World :=
  mkWorld (short_name (nth 0 argv EmptyString)) posix s [].

Definition run (argv : list string) (posix : bool) (s : Store) : Outcome unit :=
  main (Z.of_nat (List.length argv)) argv (start argv posix s).

End Program.

Arguments Exits {L A} status w.
Arguments Faults {L A} w.
Arguments OutOfFuel {L A} w.

(** What one run leaves behind. *)
Definition run_status {L : VDOLibrary} (argv : list string) (posix : bool) (s : Store)
    : option Z := exit_status (run argv posix s).
Definition run_trace {L : VDOLibrary} (argv : list string) (posix : bool) (s : Store)
    : list Event := trace (final_world (run argv posix s)).
Definition run_store {L : VDOLibrary} (argv : list string) (posix : bool) (s : Store)
    : Store := store (final_world (run argv posix s)).
Definition run_stdout {L : VDOLibrary} (argv : list string) (posix : bool) (s : Store)
    : string := stdout_of (run_trace argv posix s).
Definition run_stderr {L : VDOLibrary} (argv : list string) (posix : bool) (s : Store)
    : string := stderr_of (run_trace argv posix s).

(* ================================================================== *)
(** * Vocabulary of the specification *)

(** ** Unsigned decimal numerals *)

Definition is_digit (c : ascii) : bool :=
  let n := nat_of_ascii c in (48 <=? n)%nat && (n <=? 57)%nat.

Fixpoint all_digits (s : string) : bool :=
  match s with
  | EmptyString => true
  | String c s' => is_digit c && all_digits s'
  end.

Definition digit_value (c : ascii) : Z := Z.of_nat (nat_of_ascii c) - 48.

Fixpoint decimal_value_from (acc : Z) (s : string) : Z :=
  match s with
  | EmptyString => acc
  | String c s' => decimal_value_from (acc * 10 + digit_value c) s'
  end.

Definition decimal_value (s : string) : Z := decimal_value_from 0 s.

(** [s] is the unsigned decimal representation of [v]: one digit at
    least, digits only, no leading zero except for the numeral 0, and the
    digits read as [v]. *)
Definition unsigned_decimal (s : string) (v : Z) : Prop :=
  s <> EmptyString /\
  all_digits s = true /\
  (forall s', s = String "0" s' -> s' = EmptyString) /\
  decimal_value s = v.

(** ** The report and the diagnostics *)

Definition field_line (label value : string) : string :=
  "  " ++ label ++ ": " ++ value ++ LF.

Definition report (blockSize v1 v2 v3 v4 v5 : string) : string :=
  "VDOConfig:" ++ LF ++
  field_line "blockSize" blockSize ++
  field_line "logicalBlocks" v1 ++
  field_line "physicalBlocks" v2 ++
  field_line "slabSize" v3 ++
  field_line "recoveryJournalSize" v4 ++
  field_line "slabJournalBlocks" v5.

(** What [usage] puts on standard error for a program started as
    [argv0]: the usage line, and the empty line that [errx] adds. *)
Definition usage_text (argv0 : string) : string :=
  short_name argv0 ++ ": Usage: " ++ argv0 ++ " [--help] vdoBacking" ++ LF ++ LF.

Definition load_failure_text (argv0 path : string) : string :=
  short_name argv0 ++ ": Could not load VDO from '" ++ path ++ "'" ++ LF.

(** ** Flags and positional arguments of a command line *)

Inductive Flag : Type := HelpFlag | UnrecognizedFlag.

Definition short_flag (c : ascii) : Flag :=
  if Ascii.eqb c "h" then HelpFlag else UnrecognizedFlag.

Fixpoint short_flags (cluster : string) : list Flag :=
  match cluster with
  | EmptyString => []
  | String c rest => short_flag c :: short_flags rest
  end.

(** [--help] may be abbreviated; anything else after the two dashes,
    [--help=value] included, is not recognized. *)
Definition long_flag (body : string) : Flag :=
  if existsb (String.eqb body) ["help"; "hel"; "he"; "h"]
  then HelpFlag else UnrecognizedFlag.

(** The flags of one option element: a long option after two dashes, a
    cluster of short options after one. *)
Definition element_flags (element : string) : list Flag :=
  match element with
  | String _ (String c1 rest) =>
      if Ascii.eqb c1 "-" then [long_flag rest] else short_flags (String c1 rest)
  | _ => []
  end.

Definition flag_code (f : Flag) : Z :=
  match f with
  | HelpFlag => char_code "h"
  | UnrecognizedFlag => char_code "?"
  end.

(** The flags of the arguments in the order [getopt_long] meets them.
    The element [--] ends them; so does the first non-option when
    [POSIXLY_CORRECT] is set, otherwise non-options are passed over. *)
Fixpoint option_list (posix : bool) (args : list string) : list Flag :=
  match args with
  | [] => []
  | a :: rest =>
      if (a =? "--")%string then []
      else if NONOPTION_P a then (if posix then [] else option_list posix rest)
      else (element_flags a ++ option_list posix rest)%list
  end.

(** The positional arguments: the non-options, and whatever follows
    [--]; with [POSIXLY_CORRECT] set, whatever follows the options. *)
Fixpoint positionals (posix : bool) (args : list string) : list string :=
  match args with
  | [] => []
  | a :: rest =>
      if (a =? "--")%string then rest
      else if NONOPTION_P a then (if posix then a :: rest else a :: positionals posix rest)
      else positionals posix rest
  end.

(** The call of [getopt_long] that the loop of [processArgs] makes
    first. *)
Definition first_call (posix : bool) (argv : list string) : getopt_result :=
  getopt_internal argv optionString options posix getopt_start.

(** The call has met the flag [f]: it returns its code and leaves [argv]
    alone; a diagnostic is printed exactly for an unrecognized flag. *)
Definition meets (r : getopt_result) (argv : list string) (f : Flag) : Prop :=
  returned r = flag_code f /\
  argv_after r = argv /\
  (f = HelpFlag -> diagnostic r = None) /\
  (f = UnrecognizedFlag -> exists text, diagnostic r = Some text).

(** The call has found no flag: it returns -1 in silence, with [argv]
    rearranged so that the elements from [optind] on are [rest]. *)
Definition ends_scan (r : getopt_result) (prog : string) (argc : nat)
    (rest : list string) : Prop :=
  returned r = -1 /\
  diagnostic r = None /\
  nth 0 (argv_after r) EmptyString = prog /\
  List.length (argv_after r) = argc /\
  skipn (optind (data_after r)) (argv_after r) = rest.

(** Flag parsing recognizes the help flag: [getopt_long], called by the
    loop of [processArgs], returns ['h'].  (The loop calls it once: see
    [processArgs_loop_turn].) *)
Definition recognizes_help (posix : bool) (argv : list string) : Prop :=
  returned (first_call posix argv) = char_code "h".

Definition unrecognized_before_help (flags : list Flag) : Prop :=
  exists l1 l2, flags = (l1 ++ UnrecognizedFlag :: l2)%list /\ ~ In HelpFlag l1.

Definition help_before_unrecognized (flags : list Flag) : Prop :=
  exists l1 l2, flags = (l1 ++ HelpFlag :: l2)%list /\ ~ In UnrecognizedFlag l1.

(* ================================================================== *)
(** * What the specification asks of the volume library *)

Section Contracts.

Context {L : VDOLibrary}.

(** Modelled from the spec: the volume library behind
    [vdoVolumeUtils.h] is not part of these sources.  Section 6 of the
    specification requires that opening read-only does not mutate the
    backing store. *)
Definition opens_without_writing : Prop :=
  forall filename s, snd (makeVDOFromFile filename true s) = s.

(** Modelled from the spec: closing releases the resources of the
    handle; for a handle that was opened read-only the backing store is
    left as it is (section 4.2: one read from the backing store, no
    writes). *)
Definition closes_without_writing : Prop :=
  forall filename s result vdo s',
    makeVDOFromFile filename true s = ((result, Some vdo), s') ->
    freeVDOFromFile vdo s' = s'.

Definition read_only_contract : Prop :=
  opens_without_writing /\ closes_without_writing.

(** Modelled from the spec: the open call returns either a usable
    handle or a failure signal, so a successful call has set the
    pointer it was given. *)
Definition success_sets_handle : Prop :=
  forall filename readOnly s,
    fst (fst (makeVDOFromFile filename readOnly s)) = VDO_SUCCESS ->
    snd (fst (makeVDOFromFile filename readOnly s)) <> None.

End Contracts.

(* ================================================================== *)
(** * How a run ends *)

(** What the first call of [getopt_long] printed, if anything. *)
Definition first_diagnostic (posix : bool) (argv : list string) : string :=
  match diagnostic (first_call posix argv) with
  | Some text => text
  | None => EmptyString
  end.

Section Outcomes.

Context {L : VDOLibrary}.

(** The world of a process started as [prog], with the given backing
    stores and events. *)
Definition started (prog : string) (posix : bool) (s : Store) (t : list Event) : World :=
  mkWorld (short_name prog) posix s t.

(** The seven [printf] calls of [main]. *)
Definition report_events (c : VDOConfig) : list Event :=
  [ EvStdout ("VDOConfig:" ++ LF);
    EvStdout ("  blockSize: " ++ fmt_d VDO_BLOCK_SIZE ++ LF);
    EvStdout ("  logicalBlocks: " ++ fmt_u64 (logicalBlocks c) ++ LF);
    EvStdout ("  physicalBlocks: " ++ fmt_u64 (physicalBlocks c) ++ LF);
    EvStdout ("  slabSize: " ++ fmt_u64 (slabSize c) ++ LF);
    EvStdout ("  recoveryJournalSize: " ++ fmt_u64 (recoveryJournalSize c) ++ LF);
    EvStdout ("  slabJournalBlocks: " ++ fmt_u64 (slabJournalBlocks c) ++ LF) ].

(** Every way a run can end, by the shape of the command line and by
    what the volume library answers; [run_spec] below proves that [run]
    ends this way. *)
Definition run_result (prog : string) (args : list string) (posix : bool) (s : Store)
    : Outcome unit :=
  match option_list posix args with
  | HelpFlag :: _ => Exits 0 (started prog posix s [EvStdout helpString])
  | UnrecognizedFlag :: _ =>
      Exits 1 (started prog posix s
                 [EvStderr (first_diagnostic posix (prog :: args));
                  EvStderr (usage_text prog)])
  | [] =>
      match positionals posix args with
      | [path] =>
          let '((result, vdo), s') := makeVDOFromFile path true s in
          let opened := [EvOpenLogger; EvMakeVDO path true result] in
          if result =? VDO_SUCCESS then
            match vdo with
            | Some v =>
                Exits 0 (started prog posix (freeVDOFromFile v s')
                           (opened ++ [EvReadVDO; EvFreeVDO] ++ report_events (config v)))
            | None => Faults (started prog posix s' opened)
            end
          else
            Exits 1 (started prog posix s'
                       (opened ++ [EvStderr (load_failure_text prog path)]))
      | _ => Exits 1 (started prog posix s [EvStderr (usage_text prog)])
      end
  end.

End Outcomes.

(* ================================================================== *)
(** * A small volume library to run the program against *)

(** Backing stores by path, each holding the configuration persisted on
    it. *)
Definition DemoStore : Type := list (string * VDOConfig).

Fixpoint demo_lookup (filename : string) (s : DemoStore) : option VDOConfig :=
  match s with
  | [] => None
  | (path, c) :: s' => if (path =? filename)%string then Some c else demo_lookup filename s'
  end.

(** Loading succeeds on the paths of the store and fails with code 2 on
    any other path.  Opening for writing rewrites the store (here it
    keeps the opened volume only); opening read-only leaves it alone. *)
Definition demo_makeVDOFromFile (filename : string) (readOnly : bool) (s : DemoStore)
    : (Z * option VDO) * DemoStore :=
  match demo_lookup filename s with
  | Some c => ((0, Some (mkVDO c)), if readOnly then s else [(filename, c)])
  | None => ((2, None), s)
  end.

Definition DemoLibrary : VDOLibrary :=
  {| Store := DemoStore;
     VDO_SUCCESS := 0;
     VDO_BLOCK_SIZE := 4096;
     makeVDOFromFile := demo_makeVDOFromFile;
     freeVDOFromFile := fun _ s => s |}.

Definition demo_config : VDOConfig := mkVDOConfig 1024 2048 512 64 16.

Definition demo_store : DemoStore :=
  [ ("/dev/mapper/vdo0", demo_config); ("/dev/sdb1", mkVDOConfig 0 1 2 3 UINT64_MAX) ].

(* ================================================================== *)
(** * Further vocabulary: calls of the volume library *)

Definition is_make (e : Event) : bool :=
  match e with EvMakeVDO _ _ _ => true | _ => false end.

Definition is_vdo_call (e : Event) : bool :=
  match e with
  | EvMakeVDO _ _ _ | EvReadVDO | EvFreeVDO => true
  | _ => false
  end.

(** The volume at [path] loads: [makeVDOFromFile], asked for read-only
    access, answers [VDO_SUCCESS] and has set the handle. *)
Definition loads {L : VDOLibrary} (path : string) (s : Store) : Prop :=
  exists vdo s', makeVDOFromFile path true s = ((VDO_SUCCESS, Some vdo), s').

(** The command line is one that [processArgs] accepts: no flag, and
    [path] as its one positional argument. *)
Definition names_path (posix : bool) (args : list string) (path : string) : Prop :=
  option_list posix args = [] /\ positionals posix args = [path].

(* ================================================================== *)
(** * Proof automation *)

(** Closes the four facts of [meets] once the flag that the call has met
    is known. *)
Ltac flag_result :=
  split; [reflexivity|];
  split; [reflexivity|];
  split; intros Hflag_; first [discriminate Hflag_ | reflexivity | eexists; reflexivity].

(** Reduces the projections and the setters of the scanner's state, and
    nothing else. *)
Ltac getopt_simpl :=
  cbn [optind initialized nextchar ordering first_nonopt last_nonopt
       set_optind set_nextchar set_first_nonopt set_last_nonopt
       returned argv_after data_after diagnostic fst snd].

(* ================================================================== *)
(** * Decimal conversions print unsigned decimal numerals *)

Section Decimal.

Lemma nat_of_digit_char (d : Z) :
  0 <= d <= 9 -> nat_of_ascii (digit_char d) = (48 + Z.to_nat d)%nat.
Proof.
  intros Hd. unfold digit_char. apply nat_ascii_embedding. lia.
Qed.

Lemma is_digit_digit_char (d : Z) : 0 <= d <= 9 -> is_digit (digit_char d) = true.
Proof.
  intros Hd. unfold is_digit. rewrite (nat_of_digit_char Hd).
  apply andb_true_intro. split; apply Nat.leb_le; lia.
Qed.

Lemma digit_value_digit_char (d : Z) : 0 <= d <= 9 -> digit_value (digit_char d) = d.
Proof.
  intros Hd. unfold digit_value. rewrite (nat_of_digit_char Hd). lia.
Qed.

Lemma digit_char_zero (d : Z) : 0 <= d <= 9 -> digit_char d = "0"%char -> d = 0.
Proof.
  intros Hd E. apply (f_equal digit_value) in E.
  rewrite (digit_value_digit_char Hd) in E. exact E.
Qed.

Lemma all_digits_app (s t : string) :
  all_digits (s ++ t) = all_digits s && all_digits t.
Proof.
  induction s as [|c s IH]; simpl; [reflexivity|].
  rewrite IH. apply andb_assoc.
Qed.

Lemma decimal_value_from_app (s t : string) (acc : Z) :
  decimal_value_from acc (s ++ t) = decimal_value_from (decimal_value_from acc s) t.
Proof.
  revert acc. induction s as [|c s IH]; intros acc; simpl; [reflexivity|apply IH].
Qed.

Lemma append_unit_assoc (s : string) (c : ascii) (t : string) :
  (s ++ String c EmptyString) ++ t = s ++ String c t.
Proof.
  induction s as [|a s IH]; simpl; [reflexivity|now rewrite IH].
Qed.

Lemma unsigned_decimal_digit (d : Z) :
  0 <= d <= 9 -> unsigned_decimal (String (digit_char d) EmptyString) d.
Proof.
  intros Hd. repeat split.
  - discriminate.
  - cbn [all_digits]. now rewrite (is_digit_digit_char Hd).
  - intros s' E. now inversion E.
  - unfold decimal_value. cbn [decimal_value_from].
    now rewrite (digit_value_digit_char Hd).
Qed.

(** Appending one more digit to the numeral of a positive number. *)
Lemma unsigned_decimal_snoc (s : string) (q d : Z) :
  unsigned_decimal s q -> 0 < q -> 0 <= d <= 9 ->
  unsigned_decimal (s ++ String (digit_char d) EmptyString) (q * 10 + d).
Proof.
  intros (Hne & Hdig & Hlead & Hval) Hq Hd. repeat split.
  - destruct s; [contradiction|discriminate].
  - rewrite all_digits_app, Hdig. cbn [all_digits].
    now rewrite (is_digit_digit_char Hd).
  - intros s' E. destruct s as [|c s]; [contradiction|].
    cbn [append] in E. inversion E; subst c.
    assert (s = EmptyString) by (now apply Hlead). subst s.
    unfold decimal_value in Hval. cbn [decimal_value_from] in Hval.
    change (digit_value "0") with 0 in Hval. lia.
  - unfold decimal_value in *. rewrite decimal_value_from_app, Hval.
    cbn [decimal_value_from]. now rewrite (digit_value_digit_char Hd).
Qed.

(** The digit loop, given enough fuel for the digits of [v], puts the
    numeral of [v] before what was there. *)
Lemma utoa_numeral (fuel : nat) :
  forall (v : Z) (acc : string),
    0 <= v < 10 ^ Z.of_nat (S fuel) ->
    exists numeral,
      utoa (S fuel) v acc = numeral ++ acc /\ unsigned_decimal numeral v.
Proof.
  induction fuel as [|fuel IH]; intros v acc Hv.
  - change (10 ^ Z.of_nat 1) with 10 in Hv.
    exists (String (digit_char (v mod 10)) EmptyString).
    cbn [utoa]. rewrite (Z.div_small v 10), (Z.mod_small v 10) by lia.
    split; [reflexivity|]. apply unsigned_decimal_digit. lia.
  - assert (Hmod : 0 <= v mod 10 <= 9) by (pose proof (Z.mod_pos_bound v 10); lia).
    assert (Hsplit : v = v / 10 * 10 + v mod 10)
      by (pose proof (Z.div_mod v 10); lia).
    change (utoa (S (S fuel)) v acc)
      with (if v / 10 =? 0 then String (digit_char (v mod 10)) acc
            else utoa (S fuel) (v / 10) (String (digit_char (v mod 10)) acc)).
    destruct (Z.eqb_spec (v / 10) 0) as [E|E].
    + exists (String (digit_char (v mod 10)) EmptyString).
      split; [reflexivity|].
      replace v with (v mod 10) at 2 by lia.
      now apply unsigned_decimal_digit.
    + assert (Hq : 0 <= v / 10 < 10 ^ Z.of_nat (S fuel)).
      { split; [apply Z.div_pos; lia|].
        apply Z.div_lt_upper_bound; [lia|].
        replace (Z.of_nat (S (S fuel))) with (Z.succ (Z.of_nat (S fuel))) in Hv by lia.
        rewrite Z.pow_succ_r in Hv by lia. lia. }
      destruct (IH (v / 10) (String (digit_char (v mod 10)) acc) Hq)
        as (numeral & Heq & Hnum).
      exists (numeral ++ String (digit_char (v mod 10)) EmptyString).
      split.
      * rewrite Heq. symmetry. apply append_unit_assoc.
      * rewrite Hsplit at 2. apply unsigned_decimal_snoc; [exact Hnum|lia|exact Hmod].
Qed.

Lemma append_empty_r (s : string) : s ++ EmptyString = s.
Proof.
  induction s as [|c s IH]; simpl; [reflexivity|now rewrite IH].
Qed.

(** [%PRIu64] prints the unsigned decimal numeral of a 64-bit value. *)
Lemma fmt_u64_numeral (v : Z) : is_u64 v -> unsigned_decimal (fmt_u64 v) v.
Proof.
  unfold is_u64, UINT64_MAX, fmt_u64. intros Hv.
  rewrite Z.mod_small by lia.
  destruct (@utoa_numeral 19 v EmptyString) as (numeral & Heq & Hnum).
  - change (10 ^ Z.of_nat 20) with 100000000000000000000. lia.
  - rewrite Heq, append_empty_r. exact Hnum.
Qed.

(** [%d] prints the unsigned decimal numeral of a non-negative [int]. *)
Lemma fmt_d_numeral (v : Z) : 0 <= v <= INT_MAX -> unsigned_decimal (fmt_d v) v.
Proof.
  unfold INT_MAX, fmt_d. intros Hv.
  destruct (Z.ltb_spec v 0) as [Hneg|_]; [lia|].
  destruct (@utoa_numeral 9 v EmptyString) as (numeral & Heq & Hnum).
  - change (10 ^ Z.of_nat 10) with 10000000000. lia.
  - rewrite Heq, append_empty_r. exact Hnum.
Qed.

Lemma is_digit_bounds (c : ascii) : is_digit c = true -> 0 <= digit_value c <= 9.
Proof.
  unfold is_digit, digit_value. intros H. apply andb_prop in H. destruct H as [H1 H2].
  apply Nat.leb_le in H1, H2. lia.
Qed.

Lemma digit_value_inj (c c' : ascii) : digit_value c = digit_value c' -> c = c'.
Proof.
  unfold digit_value. intros H.
  rewrite <- (ascii_nat_embedding c), <- (ascii_nat_embedding c').
  f_equal. lia.
Qed.

Lemma decimal_value_from_shift (s : string) (acc : Z) :
  decimal_value_from acc s = acc * 10 ^ Z.of_nat (String.length s) + decimal_value s.
Proof.
  unfold decimal_value. revert acc.
  induction s as [|c s IH]; intros acc; cbn [decimal_value_from String.length].
  - change (10 ^ Z.of_nat 0) with 1. lia.
  - rewrite (IH (acc * 10 + digit_value c)), (IH (0 * 10 + digit_value c)).
    rewrite Nat2Z.inj_succ, Z.pow_succ_r by lia. ring.
Qed.

Lemma decimal_value_cons (c : ascii) (s : string) :
  decimal_value (String c s) =
  digit_value c * 10 ^ Z.of_nat (String.length s) + decimal_value s.
Proof.
  unfold decimal_value at 1. cbn [decimal_value_from].
  rewrite decimal_value_from_shift. ring.
Qed.

Lemma decimal_value_bounds (s : string) :
  all_digits s = true -> 0 <= decimal_value s < 10 ^ Z.of_nat (String.length s).
Proof.
  induction s as [|c s IH]; cbn [all_digits String.length]; intros H.
  - unfold decimal_value. cbn. lia.
  - apply andb_prop in H. destruct H as [Hc Hs].
    pose proof (is_digit_bounds _ Hc). specialize (IH Hs).
    rewrite decimal_value_cons, Nat2Z.inj_succ, Z.pow_succ_r by lia. nia.
Qed.

(** Numerals of one length that read the same are the same. *)
Lemma digits_same_length (s : string) :
  forall t, all_digits s = true -> all_digits t = true ->
    String.length s = String.length t -> decimal_value s = decimal_value t -> s = t.
Proof.
  induction s as [|c s IH]; intros [|c' t] Hs Ht Hlen Hval; try discriminate Hlen.
  - reflexivity.
  - cbn [all_digits] in Hs, Ht. apply andb_prop in Hs, Ht.
    destruct Hs as [Hc Hs], Ht as [Hc' Ht].
    cbn [String.length] in Hlen. injection Hlen as Hlen.
    rewrite !decimal_value_cons, <- Hlen in Hval.
    pose proof (decimal_value_bounds _ Hs) as Bs.
    pose proof (decimal_value_bounds _ Ht) as Bt. rewrite <- Hlen in Bt.
    pose proof (is_digit_bounds _ Hc). pose proof (is_digit_bounds _ Hc').
    assert (Hd : digit_value c = digit_value c') by nia.
    rewrite (digit_value_inj _ _ Hd). f_equal.
    apply IH; try assumption. rewrite Hd in Hval. lia.
Qed.

(** A numeral without a leading zero is as long as its value is large. *)
Lemma unsigned_decimal_magnitude (s : string) (v : Z) :
  unsigned_decimal s v -> 0 < v ->
  10 ^ Z.of_nat (String.length s - 1) <= v < 10 ^ Z.of_nat (String.length s).
Proof.
  intros (Hne & Hdig & Hlead & Hval) Hv.
  pose proof (decimal_value_bounds _ Hdig) as B. rewrite Hval in B.
  split; [|apply B].
  destruct s as [|c s]; [contradiction|].
  cbn [all_digits] in Hdig. apply andb_prop in Hdig. destruct Hdig as [Hc Hs].
  pose proof (is_digit_bounds _ Hc) as Bc.
  pose proof (decimal_value_bounds _ Hs) as Bs.
  rewrite decimal_value_cons in Hval.
  cbn [String.length]. rewrite Nat.sub_succ, Nat.sub_0_r.
  assert (Hc0 : digit_value c <> 0).
  { intros E. assert (c = "0"%char) by (apply digit_value_inj; rewrite E; reflexivity).
    subst c. rewrite (Hlead s eq_refl) in Hval. cbn in Hval. lia. }
  nia.
Qed.

(** The unsigned decimal representation of a number is unique. *)
Lemma unsigned_decimal_unique (s t : string) (v : Z) :
  unsigned_decimal s v -> unsigned_decimal t v -> s = t.
Proof.
  intros Hs Ht.
  pose proof Hs as (Hsne & Hsdig & Hslead & Hsval).
  pose proof Ht as (Htne & Htdig & Htlead & Htval).
  pose proof (decimal_value_bounds _ Hsdig) as Bs. rewrite Hsval in Bs.
  apply digits_same_length; try assumption; [|congruence].
  destruct (Z.eq_dec v 0) as [->|Hv].
  - (* the value 0 has the numeral 0 only *)
    assert (Hzero : forall u, unsigned_decimal u 0 -> u = "0").
    { intros [|c u] (Hne & Hdig & Hlead & Hval); [contradiction|].
      cbn [all_digits] in Hdig. apply andb_prop in Hdig. destruct Hdig as [Hc Hu].
      pose proof (is_digit_bounds _ Hc). pose proof (decimal_value_bounds _ Hu).
      rewrite decimal_value_cons in Hval.
      assert (Hd : digit_value c = 0) by nia.
      assert (c = "0"%char) by (apply digit_value_inj; rewrite Hd; reflexivity).
      subst c. now rewrite (Hlead u eq_refl). }
    now rewrite (Hzero s Hs), (Hzero t Ht).
  - assert (Hpos : 0 < v) by lia.
    pose proof (unsigned_decimal_magnitude Hs Hpos) as Ms.
    pose proof (unsigned_decimal_magnitude Ht Hpos) as Mt.
    destruct s as [|cs s]; [contradiction|]. destruct t as [|ct t]; [contradiction|].
    cbn [String.length] in *. rewrite !Nat.sub_succ, !Nat.sub_0_r in *.
    f_equal.
    destruct (Nat.lt_trichotomy (String.length s) (String.length t)) as [Hlt|[Heq|Hgt]];
      [exfalso|exact Heq|exfalso].
    + assert (10 ^ Z.of_nat (S (String.length s)) <= 10 ^ Z.of_nat (String.length t))
        by (apply Z.pow_le_mono_r; lia).
      lia.
    + assert (10 ^ Z.of_nat (S (String.length t)) <= 10 ^ Z.of_nat (String.length s))
        by (apply Z.pow_le_mono_r; lia).
      lia.
Qed.

End Decimal.

(* ================================================================== *)
(** * The first call of [getopt_long] *)

Section Getopt.

Lemma short_option_first (argv : list string) (d : getopt_data) (c : ascii) (rest : string) :
  nextchar d = String c rest ->
  let r := short_option argv optionString true d in
  returned r = flag_code (short_flag c) /\
  argv_after r = argv /\
  (short_flag c = HelpFlag -> diagnostic r = None) /\
  (short_flag c = UnrecognizedFlag -> exists text, diagnostic r = Some text).
Proof.
  intros Hnext. unfold short_option, short_flag, optionString. rewrite Hnext.
  cbn [strchr]. rewrite orb_false_r, (Ascii.eqb_sym "h" c).
  destruct (Ascii.eqb_spec c "h") as [->|Hc]; cbn; flag_result.
Qed.

Lemma prefix_help (body : string) :
  prefix body "help" = true ->
  body = EmptyString \/ In body ["help"; "hel"; "he"; "h"].
Proof.
  destruct body as [|a1 [|a2 [|a3 [|a4 [|a5 t]]]]]; cbn [prefix];
    repeat match goal with
           | |- context [ascii_dec ?a ?b] => destruct (ascii_dec a b) as [->|]
           end;
    try discriminate; intros _; cbn; tauto.
Qed.

Lemma long_flag_help (body : string) :
  long_flag body = HelpFlag <-> In body ["help"; "hel"; "he"; "h"].
Proof.
  unfold long_flag. split.
  - destruct (existsb _ _) eqn:E; [intros _|discriminate].
    apply existsb_exists in E. destruct E as (x & Hin & Hx).
    apply String.eqb_eq in Hx. now subst x.
  - intros Hin. replace (existsb _ _) with true; [reflexivity|].
    symmetry. apply existsb_exists. exists body. split; [exact Hin|apply String.eqb_refl].
Qed.

Lemma long_flag_cases (body : string) :
  long_flag body = HelpFlag \/ long_flag body = UnrecognizedFlag.
Proof. unfold long_flag. destruct (existsb _ _); auto. Qed.

Lemma before_char_absent (c : ascii) (s : string) :
  strchr s c = false -> before_char c s = s.
Proof.
  induction s as [|a s IH]; cbn [strchr before_char]; [reflexivity|].
  intros H. apply orb_false_elim in H. destruct H as [Ha Hs].
  rewrite Ha, (IH Hs). reflexivity.
Qed.

Lemma process_long_option_first (argv : list string) (d : getopt_data) (body : string) :
  nextchar d = body -> body <> EmptyString ->
  let r := process_long_option argv optionString options true d in
  returned r = flag_code (long_flag body) /\
  argv_after r = argv /\
  (long_flag body = HelpFlag -> diagnostic r = None) /\
  (long_flag body = UnrecognizedFlag -> exists text, diagnostic r = Some text).
Proof.
  intros Hnext Hne. unfold process_long_option. rewrite Hnext.
  destruct (strchr body "=") eqn:Heq.
  - (* an argument was given: never accepted *)
    assert (Hflag : long_flag body = UnrecognizedFlag).
    { destruct (long_flag_cases body) as [H|H]; [|exact H].
      apply long_flag_help in H. cbn in H.
      destruct H as [<-|[<-|[<-|[<-|[]]]]]; discriminate Heq. }
    rewrite Hflag. unfold find_long_option, options. cbn [find name].
    destruct (String.eqb "help" (before_char "=" body));
      [|destruct (prefix (before_char "=" body) "help")]; cbn;
      flag_result.
  - rewrite (before_char_absent _ _ Heq).
    unfold find_long_option, options. cbn [find name].
    destruct (String.eqb_spec "help" body) as [<-|Hexact].
    + cbn. flag_result.
    + destruct (prefix body "help") eqn:Hpre.
      * apply prefix_help in Hpre. destruct Hpre as [->|Hin]; [contradiction|].
        apply long_flag_help in Hin. rewrite Hin. cbn. flag_result.
      * assert (Hflag : long_flag body = UnrecognizedFlag).
        { destruct (long_flag_cases body) as [H|H]; [|exact H].
          apply long_flag_help in H. cbn in H.
          destruct H as [<-|[<-|[<-|[<-|[]]]]];
            first [now contradiction Hexact | discriminate Hpre]. }
        rewrite Hflag. cbn. flag_result.
Qed.

Lemma element_first (argv : list string) (d : getopt_data) (a : string) :
  NONOPTION_P a = false -> a <> "--" ->
  exists f fl,
    element_flags a = f :: fl /\
    meets
      match a with
      | String _ (String c1 body) =>
          if Ascii.eqb c1 "-"
          then process_long_option argv optionString options true (set_nextchar d body)
          else short_option argv optionString true (set_nextchar d (String c1 body))
      | _ => mkResult (-1) argv d None
      end argv f.
Proof.
  intros Hopt Hdd. destruct a as [|c0 [|c1 body]]; try discriminate Hopt.
  cbn [NONOPTION_P] in Hopt. apply negb_false_iff, Ascii.eqb_eq in Hopt. subst c0.
  cbn [element_flags]. destruct (Ascii.eqb_spec c1 "-") as [->|Hc1].
  - exists (long_flag body), []. split; [reflexivity|].
    apply process_long_option_first; [reflexivity|].
    intros ->. now apply Hdd.
  - exists (short_flag c1), (short_flags body). split; [reflexivity|].
    now apply short_option_first with (rest := body).
Qed.

Lemma nonoption_not_dashdash (a : string) :
  NONOPTION_P a = true -> (a =? "--")%string = false.
Proof.
  intros H. destruct (String.eqb_spec a "--") as [->|]; [discriminate H|reflexivity].
Qed.

Lemma option_not_dashdash (a : string) :
  (a =? "--")%string = false -> a <> "--".
Proof. intros H ->. discriminate H. Qed.

(** In permuting mode the non-options at the head are passed over. *)
Lemma count_nonoptions_scan (args : list string) :
  let k := count_nonoptions args in
  option_list false args = option_list false (skipn k args) /\
  positionals false args = (firstn k args ++ positionals false (skipn k args))%list /\
  (k <= List.length args)%nat /\
  (forall a r, skipn k args = a :: r -> NONOPTION_P a = false).
Proof.
  induction args as [|a args IH]; cbn zeta.
  - cbn. repeat split; [lia|discriminate].
  - cbn [count_nonoptions]. destruct (NONOPTION_P a) eqn:Ha.
    + destruct IH as (IH1 & IH2 & IH3 & IH4).
      cbn [skipn firstn option_list positionals List.length].
      rewrite (nonoption_not_dashdash _ Ha), Ha.
      split; [exact IH1|]. split; [cbn [app]; now rewrite <- IH2|].
      split; [lia|exact IH4].
    + cbn [skipn firstn app List.length]. repeat split; [lia|].
      intros a' r E. now inversion E; subst.
Qed.

Lemma skipn_all_length (A : Type) (l : list A) (k : nat) :
  (k <= List.length l)%nat -> skipn k l = [] -> k = List.length l.
Proof.
  intros Hk H. apply (f_equal (@List.length A)) in H.
  rewrite length_skipn in H. cbn in H. lia.
Qed.

Lemma skipn_cons_nth (l : list string) (k : nat) (a : string) (r : list string) :
  skipn k l = a :: r ->
  (k < List.length l)%nat /\ nth k l EmptyString = a /\ skipn (S k) l = r.
Proof.
  revert l. induction k as [|k IH]; intros [|b l] H; try discriminate H.
  - cbn in H. inversion H; subst. cbn. repeat split. lia.
  - cbn [skipn] in H. destruct (IH l H) as (H1 & H2 & H3).
    cbn [List.length nth]. repeat split; [lia|exact H2|exact H3].
Qed.


Lemma first_call_unfold (posix : bool) (prog : string) (args : list string) :
  first_call posix (prog :: args) =
  let '(argv, d) :=
    next_element (prog :: args)
      (mkGetopt 1 true EmptyString (if posix then REQUIRE_ORDER else PERMUTE) 1 1) in
  take_element (S (List.length args)) argv optionString options true d.
Proof. reflexivity. Qed.

Lemma first_call_posix (prog : string) (args : list string) :
  match option_list true args with
  | [] => ends_scan (first_call true (prog :: args)) prog (S (List.length args))
            (positionals true args)
  | f :: _ => meets (first_call true (prog :: args)) (prog :: args) f
  end.
Proof.
  rewrite first_call_unfold.
  change (next_element (prog :: args) (mkGetopt 1 true EmptyString REQUIRE_ORDER 1 1))
    with (skip_dashdash (prog :: args) (mkGetopt 1 true EmptyString REQUIRE_ORDER 1 1)).
  unfold skip_dashdash. getopt_simpl.
  destruct args as [|a r].
  - cbn. unfold ends_scan. cbn. tauto.
  - cbn [List.length Nat.eqb negb andb nth option_list positionals].
    destruct (String.eqb_spec a "--") as [->|Hdd].
    + (* the options end at once; what follows is positional *)
      getopt_simpl. cbn [Nat.eqb negb andb].
      unfold take_element. getopt_simpl. rewrite Nat.eqb_refl.
      unfold ends_scan. getopt_simpl.
      destruct r as [|b r]; cbn; tauto.
    + unfold take_element. getopt_simpl. cbn [Nat.eqb nth].
      destruct (NONOPTION_P a) eqn:Ha.
      * unfold ends_scan. cbn. tauto.
      * destruct (element_first (prog :: a :: r)
                    (mkGetopt 1 true EmptyString REQUIRE_ORDER 1 1) Ha Hdd)
          as (f & fl & Hfl & Hmeets).
        rewrite Hfl. exact Hmeets.
Qed.

Lemma first_call_permute (prog : string) (args : list string) :
  match option_list false args with
  | [] => ends_scan (first_call false (prog :: args)) prog (S (List.length args))
            (positionals false args)
  | f :: _ => meets (first_call false (prog :: args)) (prog :: args) f
  end.
Proof.
  rewrite first_call_unfold.
  pose proof (count_nonoptions_scan args) as H. cbn zeta in H.
  set (k := count_nonoptions args) in *.
  change (next_element (prog :: args) (mkGetopt 1 true EmptyString PERMUTE 1 1))
    with (skip_dashdash (prog :: args) (mkGetopt (S k) true EmptyString PERMUTE 1 (S k))).
  clearbody k.
  destruct H as (Hol & Hpos & Hk & Hhead). rewrite Hol, Hpos.
  unfold skip_dashdash. getopt_simpl. cbn [List.length Nat.eqb nth].
  destruct (skipn k args) as [|a r] eqn:Hrest.
  - (* nothing but non-options *)
    pose proof (skipn_all_length _ Hk Hrest) as Hall.
    assert (Hfirst : firstn k args = args) by (rewrite Hall; apply firstn_all).
    rewrite <- Hall, Nat.eqb_refl. cbn [negb andb option_list positionals].
    unfold take_element. getopt_simpl. cbn [Nat.eqb]. rewrite Nat.eqb_refl.
    unfold ends_scan. getopt_simpl. rewrite app_nil_r, Hfirst.
    split; [reflexivity|]. split; [reflexivity|]. split; [reflexivity|].
    split; [cbn [List.length]; now rewrite Hall|].
    destruct k; reflexivity.
  - destruct (skipn_cons_nth _ _ Hrest) as (Hlt & Hnth & Hskip).
    pose proof (Hhead a r eq_refl) as Ha.
    assert (Hne : (k =? List.length args)%nat = false) by (apply Nat.eqb_neq; lia).
    rewrite Hnth, Hne. cbn [negb andb option_list positionals].
    destruct (String.eqb_spec a "--") as [->|Hdd].
    + (* the element "--" after k non-options *)
      getopt_simpl. cbn [Nat.eqb].
      destruct k as [|k].
      * (* it comes first: nothing to exchange *)
        cbn [skipn] in Hrest. subst args.
        cbn [negb andb]. getopt_simpl.
        unfold take_element. getopt_simpl. rewrite Nat.eqb_refl.
        unfold ends_scan. getopt_simpl. cbn [firstn app List.length Nat.eqb].
        split; [reflexivity|]. split; [reflexivity|]. split; [reflexivity|].
        split; [reflexivity|].
        destruct r; reflexivity.
      * (* it is moved before the non-options passed over *)
        assert (Hk' : (k =? S k)%nat = false) by (apply Nat.eqb_neq; lia).
        cbn [Nat.eqb]. rewrite Hk'. cbn [negb andb]. unfold exchange. getopt_simpl.
        replace (S (S (S k)) - S (S k))%nat with 1%nat by lia.
        replace (S (S k) - 1)%nat with (S k) by lia.
        change (skipn (S (S k)) (prog :: args)) with (skipn (S k) args).
        change (skipn (S (S (S k))) (prog :: args)) with (skipn (S (S k)) args).
        change (skipn 1 (prog :: args)) with args.
        rewrite Hrest, Hskip.
        change (firstn 1 (prog :: args)) with [prog].
        change (firstn 1 ("--" :: r)) with ["--"].
        cbn [app Nat.add].
        unfold take_element. getopt_simpl. rewrite Nat.eqb_refl.
        unfold ends_scan. getopt_simpl.
        assert (Hlen : List.length args = (S k + S (List.length r))%nat).
        { pose proof (f_equal (@List.length string) Hrest) as Hl.
          rewrite length_skipn in Hl. cbn [List.length] in Hl. lia. }
        split; [reflexivity|]. split; [reflexivity|]. split; [reflexivity|].
        split.
        { cbn [List.length]. rewrite length_app, length_firstn. lia. }
        rewrite Hlen. cbn [Nat.eqb Nat.add negb set_optind optind first_nonopt].
        destruct (k + S (List.length r))%nat eqn:E; [lia|].
        cbn [Nat.eqb negb]. reflexivity.
    + unfold take_element. getopt_simpl. cbn [Nat.eqb].
      rewrite Hne. cbn [nth]. rewrite Hnth, Ha.
      destruct (element_first (prog :: args)
                  (mkGetopt (S k) true EmptyString PERMUTE 1 (S k)) Ha Hdd)
        as (f & fl & Hfl & Hmeets).
      rewrite Hfl. exact Hmeets.
Qed.

Lemma first_call_spec (posix : bool) (prog : string) (args : list string) :
  match option_list posix args with
  | [] => ends_scan (first_call posix (prog :: args)) prog (S (List.length args))
            (positionals posix args)
  | f :: _ => meets (first_call posix (prog :: args)) (prog :: args) f
  end.
Proof.
  destruct posix; [apply first_call_posix|apply first_call_permute].
Qed.

(** The help flag is recognized exactly when it is the first flag of the
    command line that [getopt_long] meets. *)
Lemma recognizes_help_iff (posix : bool) (prog : string) (args : list string) :
  recognizes_help posix (prog :: args) <->
  exists rest, option_list posix args = HelpFlag :: rest.
Proof.
  unfold recognizes_help. pose proof (first_call_spec posix prog args) as H.
  destruct (option_list posix args) as [|[|] fl].
  - destruct H as (Hret & _). rewrite Hret.
    split; [discriminate|intros (rest & E); discriminate E].
  - destruct H as (Hret & _). split; [now exists fl|intros _; exact Hret].
  - destruct H as (Hret & _). rewrite Hret.
    split; [discriminate|intros (rest & E); discriminate E].
Qed.

(** The flags and the positional arguments of some command lines. *)
Example option_list_permutes :
  option_list false ["a"; "-xh"; "b"; "--hel"; "--"; "-h"]
  = [UnrecognizedFlag; HelpFlag; HelpFlag] /\
  positionals false ["a"; "-xh"; "b"; "--hel"; "--"; "-h"] = ["a"; "b"; "-h"].
Proof. split; reflexivity. Qed.

Example option_list_posix :
  option_list true ["-h"; "a"; "-x"] = [HelpFlag] /\
  positionals true ["-h"; "a"; "-x"] = ["a"; "-x"].
Proof. split; reflexivity. Qed.

(** A lone dash is a non-option, an argument attached to [--help] makes
    the flag unrecognized, and [getopt_long] leaves the non-options it
    passed over behind the element [--]. *)
Example first_call_rearranges :
  argv_after (first_call false ["prog"; "-"; "--"; "x"]) = ["prog"; "--"; "-"; "x"] /\
  optind (data_after (first_call false ["prog"; "-"; "--"; "x"])) = 2%nat /\
  option_list false ["--help=1"] = [UnrecognizedFlag].
Proof. repeat split. Qed.

End Getopt.

(* ================================================================== *)
(** * Every run, case by case *)

Section Runs.

Context {L : VDOLibrary}.

Lemma append_assoc (s t u : string) : (s ++ t) ++ u = s ++ t ++ u.
Proof.
  induction s as [|a s IH]; cbn [append]; [reflexivity|now rewrite IH].
Qed.

(** One turn of the loop of [processArgs]: whatever [getopt_long]
    returns, the turn ends the loop or the process. *)
Lemma processArgs_loop_turn (fuel : nat) (argv : list string) (d : getopt_data) (w : World) :
  processArgs_loop (S fuel) argv d w =
  let r := getopt_internal argv optionString options (posixly_correct w) d in
  let w' := match diagnostic r with
            | Some text => add_event w (EvStderr text)
            | None => w
            end in
  if returned r =? -1 then Returns (argv_after r, data_after r) w'
  else if returned r =? char_code "h"
       then Exits 0 (add_event w' (EvStdout helpString))
       else Exits 1 (add_event w'
                       (EvStderr (progname w ++ ": Usage: "
                                    ++ nth 0 (argv_after r) EmptyString
                                    ++ " [--help] vdoBacking" ++ LF ++ LF))).
Proof.
  cbn [processArgs_loop]. unfold bind at 1. unfold getopt_long.
  cbn zeta.
  destruct (diagnostic (getopt_internal argv optionString options (posixly_correct w) d));
    (destruct (returned _ =? -1); [reflexivity|]);
    (destruct (returned _ =? char_code "h"); [reflexivity|]);
    unfold usage, errx, bind, emit, exit, usageString;
    cbn [progname add_event]; rewrite !append_assoc; reflexivity.
Qed.


Lemma usage_exits (argv0 : string) (w : World) :
  usage argv0 w =
  Exits 1 (add_event w
             (EvStderr (progname w ++ ": Usage: " ++ argv0
                          ++ " [--help] vdoBacking" ++ LF ++ LF))).
Proof.
  unfold usage, errx, bind, emit, exit, usageString.
  rewrite !append_assoc. reflexivity.
Qed.

Lemma processArgs_spec (prog : string) (args : list string) (posix : bool) (s : Store) :
  processArgs (Z.of_nat (S (List.length args))) (prog :: args)
    (start (prog :: args) posix s) =
  match option_list posix args with
  | HelpFlag :: _ => Exits 0 (started prog posix s [EvStdout helpString])
  | UnrecognizedFlag :: _ =>
      Exits 1 (started prog posix s
                 [EvStderr (first_diagnostic posix (prog :: args));
                  EvStderr (usage_text prog)])
  | [] =>
      match positionals posix args with
      | [path] => Returns path (started prog posix s [])
      | _ => Exits 1 (started prog posix s [EvStderr (usage_text prog)])
      end
  end.
Proof.
  unfold processArgs. unfold bind at 1. rewrite processArgs_loop_turn.
  change (posixly_correct (start (prog :: args) posix s)) with posix.
  change (getopt_internal (prog :: args) optionString options posix getopt_start)
    with (first_call posix (prog :: args)).
  unfold first_diagnostic.
  pose proof (first_call_spec posix prog args) as Hfirst.
  destruct (option_list posix args) as [|[|] fl].
  - (* no flag: the count of what is left decides *)
    destruct Hfirst as (Hret & Hdiag & Hprog & Hlen & Hskip).
    rewrite Hret, Hdiag. cbn zeta. cbn [Z.eqb Pos.eqb]. cbv beta iota.
    set (argv' := argv_after (first_call posix (prog :: args))) in *.
    set (d' := data_after (first_call posix (prog :: args))) in *.
    assert (Hcount : List.length (positionals posix args)
                     = (S (List.length args) - optind d')%nat).
    { rewrite <- Hskip, length_skipn, Hlen. reflexivity. }
    destruct (positionals posix args) as [|path [|path' rest]];
      cbn [List.length] in Hcount.
    + replace (Z.of_nat (optind d') =? Z.of_nat (S (List.length args)) - 1) with false
        by (symmetry; apply Z.eqb_neq; lia).
      cbn [negb]. unfold bind. now rewrite usage_exits, Hprog.
    + replace (Z.of_nat (optind d') =? Z.of_nat (S (List.length args)) - 1) with true
        by (symmetry; apply Z.eqb_eq; lia).
      destruct (skipn_cons_nth _ _ Hskip) as (_ & Hnth & _).
      cbn [negb]. unfold bind, ret. now rewrite Hnth.
    + replace (Z.of_nat (optind d') =? Z.of_nat (S (List.length args)) - 1) with false
        by (symmetry; apply Z.eqb_neq; lia).
      cbn [negb]. unfold bind. now rewrite usage_exits, Hprog.
  - destruct Hfirst as (Hret & Hargv & Hnone & _).
    rewrite Hret, (Hnone eq_refl). reflexivity.
  - destruct Hfirst as (Hret & Hargv & _ & Hsome).
    destruct (Hsome eq_refl) as (text & Htext).
    rewrite Hret, Hargv, Htext. reflexivity.
Qed.


Lemma readVDOConfig_spec (path : string) (w : World) :
  readVDOConfig path w =
  let '((result, vdo), s') := makeVDOFromFile path true (store w) in
  let w1 := add_event (set_store w s') (EvMakeVDO path true result) in
  if result =? VDO_SUCCESS then
    match vdo with
    | Some v =>
        Returns (config v)
          (add_event (set_store (add_event w1 EvReadVDO) (freeVDOFromFile v s')) EvFreeVDO)
    | None => Faults w1
    end
  else
    Exits 1 (add_event w1
               (EvStderr (progname w ++ ": Could not load VDO from '" ++ path ++ "'" ++ LF))).
Proof.
  unfold readVDOConfig, call_makeVDOFromFile. unfold bind at 1.
  destruct (makeVDOFromFile path true (store w)) as [[result vdo] s'].
  cbn [fst]. destruct (result =? VDO_SUCCESS).
  - cbn [negb]. destruct vdo as [v|]; reflexivity.
  - cbn [negb]. unfold bind at 1. unfold errx, bind, emit, exit.
    cbn [progname add_event set_store]. rewrite !append_assoc. reflexivity.
Qed.

Lemma run_spec (prog : string) (args : list string) (posix : bool) (s : Store) :
  run (prog :: args) posix s = run_result prog args posix s.
Proof.
  unfold run, run_result, main. unfold bind at 1.
  cbn [List.length]. rewrite processArgs_spec.
  destruct (option_list posix args) as [|[|] fl]; try reflexivity.
  destruct (positionals posix args) as [|path [|path' rest]]; try reflexivity.
  unfold bind at 1. unfold openLogger at 1, emit at 1.
  unfold bind at 1. rewrite readVDOConfig_spec.
  cbn [store add_event started].
  destruct (makeVDOFromFile path true s) as [[result vdo] s'].
  destruct (result =? VDO_SUCCESS); [|reflexivity].
  destruct vdo as [v|]; reflexivity.
Qed.

End Runs.

(* ================================================================== *)
(** * The claims of the specification *)

Section Claims.

Context {L : VDOLibrary}.

Lemma stdout_of_report_events (c : VDOConfig) :
  stdout_of (report_events c) =
  report (fmt_d VDO_BLOCK_SIZE)
    (fmt_u64 (logicalBlocks c)) (fmt_u64 (physicalBlocks c)) (fmt_u64 (slabSize c))
    (fmt_u64 (recoveryJournalSize c)) (fmt_u64 (slabJournalBlocks c)).
Proof.
  unfold report_events, report, field_line. cbn [stdout_of].
  rewrite append_empty_r, !append_assoc. reflexivity.
Qed.

(** The run of a command line without flags whose one positional
    argument names a volume that loads. *)
Lemma run_valid_volume (prog : string) (args : list string) (posix : bool) (s : Store)
    (path : string) (vdo : VDO) (s' : Store) :
  option_list posix args = [] ->
  positionals posix args = [path] ->
  makeVDOFromFile path true s = ((VDO_SUCCESS, Some vdo), s') ->
  run (prog :: args) posix s =
  Exits 0 (started prog posix (freeVDOFromFile vdo s')
             ([EvOpenLogger; EvMakeVDO path true VDO_SUCCESS; EvReadVDO; EvFreeVDO]
                ++ report_events (config vdo))).
Proof.
  intros Hflags Hpos Hload. rewrite run_spec. unfold run_result.
  rewrite Hflags, Hpos, Hload, Z.eqb_refl. reflexivity.
Qed.

(** C1: an invocation whose arguments are exactly one positional argument
    naming a valid volume writes the header line and the six labelled
    field lines, in the fixed order, to standard output and exits with
    code 0. *)
Theorem C1_report_on_valid_volume (prog : string) (args : list string) (posix : bool)
    (s : Store) (path : string) (vdo : VDO) (s' : Store) :
  option_list posix args = [] ->
  positionals posix args = [path] ->
  makeVDOFromFile path true s = ((VDO_SUCCESS, Some vdo), s') ->
  run_stdout (prog :: args) posix s =
    "VDOConfig:" ++ LF ++
    field_line "blockSize" (fmt_d VDO_BLOCK_SIZE) ++
    field_line "logicalBlocks" (fmt_u64 (logicalBlocks (config vdo))) ++
    field_line "physicalBlocks" (fmt_u64 (physicalBlocks (config vdo))) ++
    field_line "slabSize" (fmt_u64 (slabSize (config vdo))) ++
    field_line "recoveryJournalSize" (fmt_u64 (recoveryJournalSize (config vdo))) ++
    field_line "slabJournalBlocks" (fmt_u64 (slabJournalBlocks (config vdo)))
  /\ run_status (prog :: args) posix s = Some 0.
Proof.
  intros Hflags Hpos Hload.
  unfold run_stdout, run_trace, run_status.
  rewrite (run_valid_volume prog _ _ _ Hflags Hpos Hload).
  split; [|reflexivity].
  cbn [final_world trace started app stdout_of].
  apply stdout_of_report_events.
Qed.

Lemma run_load_failure (prog : string) (args : list string) (posix : bool) (s : Store)
    (path : string) (result : Z) (vdo : option VDO) (s' : Store) :
  option_list posix args = [] ->
  positionals posix args = [path] ->
  makeVDOFromFile path true s = ((result, vdo), s') ->
  result <> VDO_SUCCESS ->
  run (prog :: args) posix s =
  Exits 1 (started prog posix s'
             [EvOpenLogger; EvMakeVDO path true result;
              EvStderr (load_failure_text prog path)]).
Proof.
  intros Hflags Hpos Hload Hfail. rewrite run_spec. unfold run_result.
  rewrite Hflags, Hpos, Hload.
  destruct (Z.eqb_spec result VDO_SUCCESS) as [E|_]; [contradiction|reflexivity].
Qed.

(** C2: when loading the volume fails, the process exits with code 1,
    the diagnostic on standard error names the backing-store path, and
    nothing at all is written to standard output. *)
Theorem C2_load_failure_reported (prog : string) (args : list string) (posix : bool)
    (s : Store) (path : string) (result : Z) (vdo : option VDO) (s' : Store) :
  option_list posix args = [] ->
  positionals posix args = [path] ->
  makeVDOFromFile path true s = ((result, vdo), s') ->
  result <> VDO_SUCCESS ->
  run_status (prog :: args) posix s = Some 1 /\
  run_stderr (prog :: args) posix s =
    short_name prog ++ ": Could not load VDO from '" ++ path ++ "'" ++ LF /\
  run_stdout (prog :: args) posix s = EmptyString /\
  Forall (fun e => is_stdout e = false) (run_trace (prog :: args) posix s).
Proof.
  intros Hflags Hpos Hload Hfail.
  unfold run_status, run_stderr, run_stdout, run_trace.
  rewrite (run_load_failure prog _ _ _ Hflags Hpos Hload Hfail).
  cbn [final_world trace started exit_status stderr_of stdout_of].
  split; [reflexivity|]. split; [apply append_empty_r|]. split; [reflexivity|].
  repeat constructor.
Qed.

Lemma run_wrong_count (prog : string) (args : list string) (posix : bool) (s : Store) :
  option_list posix args = [] ->
  List.length (positionals posix args) <> 1%nat ->
  run (prog :: args) posix s =
  Exits 1 (started prog posix s [EvStderr (usage_text prog)]).
Proof.
  intros Hflags Hcount. rewrite run_spec. unfold run_result. rewrite Hflags.
  destruct (positionals posix args) as [|path [|path' rest]];
    [reflexivity|now contradiction Hcount|reflexivity].
Qed.

(** C3: when flag parsing ends without meeting a flag and leaves no
    positional argument or more than one, the process exits with code 1;
    the usage message on standard error is all it writes, and the volume
    library is not called. *)
Theorem C3_wrong_positional_count (prog : string) (args : list string) (posix : bool)
    (s : Store) :
  option_list posix args = [] ->
  List.length (positionals posix args) <> 1%nat ->
  run_status (prog :: args) posix s = Some 1 /\
  run_trace (prog :: args) posix s = [EvStderr (usage_text prog)] /\
  run_stderr (prog :: args) posix s =
    short_name prog ++ ": Usage: " ++ prog ++ " [--help] vdoBacking" ++ LF ++ LF /\
  run_stdout (prog :: args) posix s = EmptyString.
Proof.
  intros Hflags Hcount.
  unfold run_status, run_stderr, run_stdout, run_trace.
  rewrite (run_wrong_count prog _ _ s Hflags Hcount).
  cbn [final_world trace started exit_status stderr_of stdout_of].
  split; [reflexivity|]. split; [reflexivity|]. split; [apply append_empty_r|reflexivity].
Qed.

(** C4: in the report every printed value is the unsigned decimal
    representation of its field, and the blockSize line, printed with
    [%d], shows the unsigned decimal representation of the block-size
    constant (a non-negative [int]). *)
Theorem C4_values_unsigned_decimal (prog : string) (args : list string) (posix : bool)
    (s : Store) (path : string) (vdo : VDO) (s' : Store) :
  option_list posix args = [] ->
  positionals posix args = [path] ->
  makeVDOFromFile path true s = ((VDO_SUCCESS, Some vdo), s') ->
  wf_config (config vdo) ->
  0 <= VDO_BLOCK_SIZE <= INT_MAX ->
  exists blockSize v1 v2 v3 v4 v5,
    run_stdout (prog :: args) posix s = report blockSize v1 v2 v3 v4 v5 /\
    unsigned_decimal blockSize VDO_BLOCK_SIZE /\
    unsigned_decimal v1 (logicalBlocks (config vdo)) /\
    unsigned_decimal v2 (physicalBlocks (config vdo)) /\
    unsigned_decimal v3 (slabSize (config vdo)) /\
    unsigned_decimal v4 (recoveryJournalSize (config vdo)) /\
    unsigned_decimal v5 (slabJournalBlocks (config vdo)).
Proof.
  intros Hflags Hpos Hload (H1 & H2 & H3 & H4 & H5) Hblock.
  exists (fmt_d VDO_BLOCK_SIZE),
    (fmt_u64 (logicalBlocks (config vdo))), (fmt_u64 (physicalBlocks (config vdo))),
    (fmt_u64 (slabSize (config vdo))), (fmt_u64 (recoveryJournalSize (config vdo))),
    (fmt_u64 (slabJournalBlocks (config vdo))).
  split.
  - unfold run_stdout, run_trace.
    rewrite (run_valid_volume prog _ _ _ Hflags Hpos Hload).
    cbn [final_world trace started app stdout_of].
    apply stdout_of_report_events.
  - auto 10 using fmt_d_numeral, fmt_u64_numeral.
Qed.

Lemma run_help_first (prog : string) (args : list string) (posix : bool) (s : Store)
    (rest : list Flag) :
  option_list posix args = HelpFlag :: rest ->
  run (prog :: args) posix s = Exits 0 (started prog posix s [EvStdout helpString]).
Proof.
  intros Hflags. rewrite run_spec. unfold run_result. now rewrite Hflags.
Qed.

Lemma run_unrecognized_first (prog : string) (args : list string) (posix : bool)
    (s : Store) (rest : list Flag) :
  option_list posix args = UnrecognizedFlag :: rest ->
  run (prog :: args) posix s =
  Exits 1 (started prog posix s
             [EvStderr (first_diagnostic posix (prog :: args));
              EvStderr (usage_text prog)]).
Proof.
  intros Hflags. rewrite run_spec. unfold run_result. now rewrite Hflags.
Qed.

(** C5: whenever flag parsing recognizes [--help] or [-h], the program
    prints the fixed help text to standard output and exits with code 0;
    the help text is all it writes, and the volume library is not
    called. *)
Theorem C5_help_recognized (prog : string) (args : list string) (posix : bool)
    (s : Store) :
  recognizes_help posix (prog :: args) ->
  run_trace (prog :: args) posix s = [EvStdout helpString] /\
  run_stdout (prog :: args) posix s = helpString /\
  run_status (prog :: args) posix s = Some 0.
Proof.
  intros Hhelp. apply recognizes_help_iff in Hhelp. destruct Hhelp as (rest & Hflags).
  unfold run_stdout, run_trace, run_status.
  rewrite (run_help_first prog _ _ s Hflags).
  cbn [final_world trace started exit_status stdout_of].
  split; [reflexivity|]. split; [apply append_empty_r|reflexivity].
Qed.

(** C7, as amended: when the first flag that flag parsing meets is not
    recognized, the process exits with code 1; standard error receives
    the diagnostic of [getopt_long] and then the usage message, and
    nothing goes to standard output. *)
Theorem C7_unrecognized_met_first (prog : string) (args : list string) (posix : bool)
    (s : Store) (rest : list Flag) :
  option_list posix args = UnrecognizedFlag :: rest ->
  run_status (prog :: args) posix s = Some 1 /\
  (exists diag,
     run_trace (prog :: args) posix s = [EvStderr diag; EvStderr (usage_text prog)] /\
     run_stderr (prog :: args) posix s =
       diag ++ short_name prog ++ ": Usage: " ++ prog ++ " [--help] vdoBacking" ++ LF ++ LF) /\
  run_stdout (prog :: args) posix s = EmptyString.
Proof.
  intros Hflags. unfold run_stdout, run_stderr, run_trace, run_status.
  rewrite (run_unrecognized_first prog _ _ s Hflags).
  cbn [final_world trace started exit_status stdout_of stderr_of].
  split; [reflexivity|]. split; [|reflexivity].
  eexists. split; [reflexivity|]. now rewrite append_empty_r.
Qed.

Lemma unrecognized_before_help_head (flags : list Flag) :
  unrecognized_before_help flags -> exists rest, flags = UnrecognizedFlag :: rest.
Proof.
  intros (l1 & l2 & -> & Hnone). destruct l1 as [|[|] l1]; cbn [app].
  - now exists l2.
  - exfalso. apply Hnone. now left.
  - now exists (l1 ++ UnrecognizedFlag :: l2)%list.
Qed.

Lemma help_before_unrecognized_head (flags : list Flag) :
  help_before_unrecognized flags -> exists rest, flags = HelpFlag :: rest.
Proof.
  intros (l1 & l2 & -> & Hnone). destruct l1 as [|[|] l1]; cbn [app].
  - now exists l2.
  - now exists (l1 ++ HelpFlag :: l2)%list.
  - exfalso. apply Hnone. now left.
Qed.

(** C10: of the flags in the order [getopt_long] meets them, the first
    decides.  If an unrecognized flag comes before any help flag the
    process exits with code 1 and prints no help text; if a help flag
    comes before every unrecognized flag the process prints the help text
    and exits with code 0, whatever the positional arguments are. *)
Theorem C10_first_flag_decides (prog : string) (args : list string) (posix : bool)
    (s : Store) :
  (unrecognized_before_help (option_list posix args) ->
   run_status (prog :: args) posix s = Some 1 /\
   run_stdout (prog :: args) posix s = EmptyString) /\
  (help_before_unrecognized (option_list posix args) ->
   run_stdout (prog :: args) posix s = helpString /\
   run_status (prog :: args) posix s = Some 0).
Proof.
  unfold run_stdout, run_trace, run_status. split; intros H.
  - destruct (unrecognized_before_help_head H) as (rest & Hflags).
    rewrite (run_unrecognized_first prog _ _ s Hflags). split; reflexivity.
  - destruct (help_before_unrecognized_head H) as (rest & Hflags).
    rewrite (run_help_first prog _ _ s Hflags).
    cbn [final_world trace started exit_status stdout_of].
    split; [apply append_empty_r|reflexivity].
Qed.

Lemma is_stdout_report_events (c : VDOConfig) :
  Forall (fun e => is_stdout e = true) (report_events c).
Proof. unfold report_events. repeat constructor. Qed.

Lemma filter_none (A : Type) (p q : A -> bool) (l : list A) :
  Forall (fun x => p x = true) l -> (forall x, p x = true -> q x = false) ->
  filter q l = [].
Proof.
  intros Hall Hpq. induction Hall as [|x l Hx _ IH]; cbn [filter]; [reflexivity|].
  now rewrite (Hpq x Hx).
Qed.

(** C6: on every run that reaches a successful open, the trace is: the
    logger is opened, the volume is opened read-only, the configuration
    is read through the handle, the handle is freed, and only then come
    the writes of the report to standard output, and nothing else.  So
    the configuration is copied before the handle is closed, the handle
    is closed exactly once, and it is closed before any output. *)
Theorem C6_copy_close_render (prog : string) (args : list string) (posix : bool)
    (s : Store) (path : string) (readOnly : bool) :
  success_sets_handle ->
  In (EvMakeVDO path readOnly VDO_SUCCESS) (run_trace (prog :: args) posix s) ->
  exists report_writes,
    run_trace (prog :: args) posix s =
      ([EvOpenLogger; EvMakeVDO path true VDO_SUCCESS; EvReadVDO; EvFreeVDO]
         ++ report_writes)%list /\
    Forall (fun e => is_stdout e = true) report_writes /\
    List.length (filter is_free (run_trace (prog :: args) posix s)) = 1%nat.
Proof.
  intros Hcontract. unfold run_trace. rewrite run_spec. unfold run_result.
  destruct (option_list posix args) as [|[|] fl].
  - destruct (positionals posix args) as [|p [|p' rest]].
    + cbn. intros [H|[]]. discriminate H.
    + pose proof (Hcontract p true s) as Hset.
      destruct (makeVDOFromFile p true s) as [[result vdo] s']. cbn [fst snd] in Hset.
      destruct (Z.eqb_spec result VDO_SUCCESS) as [->|Hne].
      * destruct vdo as [v|]; [|now contradiction Hset].
        cbn [final_world trace started]. intros Hin.
        assert (Hpath : path = p).
        { cbn in Hin. destruct Hin as [H|[H|[H|[H|Hin]]]]; try discriminate H.
          - now inversion H.
          - pose proof (is_stdout_report_events (config v)) as Hall.
            rewrite Forall_forall in Hall. apply Hall in Hin. discriminate Hin. }
        subst p. exists (report_events (config v)).
        split; [reflexivity|]. split; [apply is_stdout_report_events|].
        cbn [app filter is_free].
        rewrite (@filter_none _ is_stdout is_free _ (is_stdout_report_events (config v)));
          [reflexivity|].
        intros [] Hx; (discriminate Hx || reflexivity).
      * cbn. intros [H|[H|[H|[]]]]; try discriminate H.
        inversion H. now contradiction Hne.
    + cbn. intros [H|[]]. discriminate H.
  - cbn. intros [H|[]]. discriminate H.
  - cbn. intros [H|[H|[]]]; discriminate H.
Qed.

(** A run leaves the backing stores as it found them when the volume
    library keeps to its read-only contract. *)
Lemma run_store_unchanged (prog : string) (args : list string) (posix : bool) (s : Store) :
  read_only_contract -> run_store (prog :: args) posix s = s.
Proof.
  intros [Hopen Hclose]. unfold run_store. rewrite run_spec. unfold run_result.
  destruct (option_list posix args) as [|[|] fl]; try reflexivity.
  destruct (positionals posix args) as [|p [|p' rest]]; try reflexivity.
  pose proof (Hopen p s) as Hsame. pose proof (Hclose p s) as Hfree.
  destruct (makeVDOFromFile p true s) as [[result vdo] s']. cbn [snd] in Hsame. subst s'.
  destruct (result =? VDO_SUCCESS); [|reflexivity].
  destruct vdo as [v|]; [|reflexivity].
  cbn [final_world store started]. now apply (Hfree result v s).
Qed.

Lemma run_opens_read_only (prog : string) (args : list string) (posix : bool) (s : Store) :
  Forall opens_read_only (run_trace (prog :: args) posix s).
Proof.
  unfold run_trace. rewrite run_spec. unfold run_result.
  destruct (option_list posix args) as [|[|] fl]; try (repeat constructor).
  destruct (positionals posix args) as [|p [|p' rest]]; try (repeat constructor).
  destruct (makeVDOFromFile p true s) as [[result vdo] s'].
  destruct (result =? VDO_SUCCESS); [|repeat constructor].
  destruct vdo as [v|]; repeat constructor.
Qed.

(** C8: every call of [makeVDOFromFile] a run makes asks for read-only
    access, the program itself has no operation on the backing stores,
    and so, the volume library keeping to its read-only contract, the
    persisted state after a run is the state before it. *)
Theorem C8_backing_store_untouched (prog : string) (args : list string) (posix : bool)
    (s : Store) :
  read_only_contract ->
  Forall opens_read_only (run_trace (prog :: args) posix s) /\
  run_store (prog :: args) posix s = s.
Proof.
  intros Hcontract. split; [apply run_opens_read_only|now apply run_store_unchanged].
Qed.

(** What a run shows depends on the backing stores only through what
    loading answers. *)
Lemma run_depends_on_load (prog : string) (args : list string) (posix : bool)
    (s1 s2 : Store) :
  (forall path, fst (makeVDOFromFile path true s1) = fst (makeVDOFromFile path true s2)) ->
  run_trace (prog :: args) posix s1 = run_trace (prog :: args) posix s2 /\
  run_status (prog :: args) posix s1 = run_status (prog :: args) posix s2.
Proof.
  intros Hload. unfold run_trace, run_status. rewrite !run_spec. unfold run_result.
  destruct (option_list posix args) as [|[|] fl]; try (split; reflexivity).
  destruct (positionals posix args) as [|p [|p' rest]]; try (split; reflexivity).
  specialize (Hload p).
  destruct (makeVDOFromFile p true s1) as [[r1 v1] s1'].
  destruct (makeVDOFromFile p true s2) as [[r2 v2] s2'].
  cbn [fst] in Hload. inversion Hload; subst r2 v2.
  destruct (r1 =? VDO_SUCCESS); [|split; reflexivity].
  destruct v1 as [v|]; split; reflexivity.
Qed.

(** C9: a second invocation with the same arguments, against the backing
    store as the first invocation left it, writes the same bytes to
    standard output and exits with the same code; and more generally two
    runs show the same whenever loading answers the same. *)
Theorem C9_repeatable (prog : string) (args : list string) (posix : bool) (s : Store) :
  read_only_contract ->
  (run_stdout (prog :: args) posix (run_store (prog :: args) posix s)
     = run_stdout (prog :: args) posix s /\
   run_status (prog :: args) posix (run_store (prog :: args) posix s)
     = run_status (prog :: args) posix s) /\
  (forall s2,
     (forall path, fst (makeVDOFromFile path true s) = fst (makeVDOFromFile path true s2)) ->
     run_stdout (prog :: args) posix s2 = run_stdout (prog :: args) posix s /\
     run_status (prog :: args) posix s2 = run_status (prog :: args) posix s).
Proof.
  intros Hcontract. split.
  - rewrite (run_store_unchanged prog args posix s Hcontract). split; reflexivity.
  - intros s2 Hload. unfold run_stdout.
    destruct (@run_depends_on_load prog args posix s s2 Hload) as [Htrace Hstatus].
    now rewrite Htrace, Hstatus.
Qed.

(** X1: every run ends with the process exiting, with code 0 or 1 (the
    loop of [processArgs] never needs a second turn), provided a
    successful [makeVDOFromFile] has set the handle. *)
Theorem run_exits_zero_or_one (prog : string) (args : list string) (posix : bool)
    (s : Store) :
  success_sets_handle ->
  run_status (prog :: args) posix s = Some 0 \/
  run_status (prog :: args) posix s = Some 1.
Proof.
  intros Hcontract. unfold run_status. rewrite run_spec. unfold run_result.
  destruct (option_list posix args) as [|[|] fl]; [|now left|now right].
  destruct (positionals posix args) as [|p [|p' rest]]; [now right| |now right].
  pose proof (Hcontract p true s) as Hset.
  destruct (makeVDOFromFile p true s) as [[result vdo] s']. cbn [fst snd] in Hset.
  destruct (Z.eqb_spec result VDO_SUCCESS) as [E|_]; [|now right].
  destruct vdo as [v|]; [now left|now contradiction (Hset E)].
Qed.

End Claims.

(* ================================================================== *)
(** * The claims on concrete command lines *)

Lemma demo_success_sets_handle : success_sets_handle (L := DemoLibrary).
Proof.
  intros filename readOnly s. cbn.
  unfold demo_makeVDOFromFile. destruct (demo_lookup filename s); cbn; discriminate.
Qed.

Lemma demo_read_only_contract : read_only_contract (L := DemoLibrary).
Proof.
  split.
  - intros filename s. cbn. unfold demo_makeVDOFromFile.
    now destruct (demo_lookup filename s).
  - intros filename s result vdo s' _. reflexivity.
Qed.

(** The example of the specification: the report for a volume with
    logicalBlocks 1024, physicalBlocks 2048, slabSize 512,
    recoveryJournalSize 64, slabJournalBlocks 16 and block size 4096. *)
Lemma C1_witness :
  run_stdout (L := DemoLibrary) ["vdodumpconfig"; "/dev/mapper/vdo0"] false demo_store =
    "VDOConfig:" ++ LF ++
    "  blockSize: 4096" ++ LF ++
    "  logicalBlocks: 1024" ++ LF ++
    "  physicalBlocks: 2048" ++ LF ++
    "  slabSize: 512" ++ LF ++
    "  recoveryJournalSize: 64" ++ LF ++
    "  slabJournalBlocks: 16" ++ LF
  /\ run_status (L := DemoLibrary) ["vdodumpconfig"; "/dev/mapper/vdo0"] false demo_store
     = Some 0.
Proof.
  exact (@C1_report_on_valid_volume DemoLibrary "vdodumpconfig" ["/dev/mapper/vdo0"]
           false demo_store "/dev/mapper/vdo0" (mkVDO demo_config) demo_store
           eq_refl eq_refl eq_refl).
Defined.

Lemma C2_witness :
  run_status (L := DemoLibrary) ["/usr/bin/vdodumpconfig"; "/dev/null"] false demo_store
    = Some 1 /\
  run_stderr (L := DemoLibrary) ["/usr/bin/vdodumpconfig"; "/dev/null"] false demo_store
    = "vdodumpconfig: Could not load VDO from '/dev/null'" ++ LF /\
  run_stdout (L := DemoLibrary) ["/usr/bin/vdodumpconfig"; "/dev/null"] false demo_store
    = EmptyString /\
  Forall (fun e => is_stdout e = false)
    (run_trace (L := DemoLibrary) ["/usr/bin/vdodumpconfig"; "/dev/null"] false demo_store).
Proof.
  apply (@C2_load_failure_reported DemoLibrary "/usr/bin/vdodumpconfig" ["/dev/null"]
           false demo_store "/dev/null" 2 None demo_store);
    [reflexivity|reflexivity|reflexivity|discriminate].
Defined.

Lemma C3_witness :
  run_status (L := DemoLibrary)
    ["vdodumpconfig"; "/dev/mapper/vdo0"; "--"; "/dev/sdb1"] false demo_store = Some 1 /\
  run_trace (L := DemoLibrary)
    ["vdodumpconfig"; "/dev/mapper/vdo0"; "--"; "/dev/sdb1"] false demo_store
    = [EvStderr (usage_text "vdodumpconfig")] /\
  run_stderr (L := DemoLibrary)
    ["vdodumpconfig"; "/dev/mapper/vdo0"; "--"; "/dev/sdb1"] false demo_store
    = "vdodumpconfig: Usage: vdodumpconfig [--help] vdoBacking" ++ LF ++ LF /\
  run_stdout (L := DemoLibrary)
    ["vdodumpconfig"; "/dev/mapper/vdo0"; "--"; "/dev/sdb1"] false demo_store
    = EmptyString.
Proof.
  apply (@C3_wrong_positional_count DemoLibrary "vdodumpconfig"
           ["/dev/mapper/vdo0"; "--"; "/dev/sdb1"] false demo_store);
    [reflexivity|cbn; discriminate].
Defined.

Lemma C4_witness :
  exists blockSize v1 v2 v3 v4 v5,
    run_stdout (L := DemoLibrary) ["vdodumpconfig"; "--"; "/dev/sdb1"] true demo_store
      = report blockSize v1 v2 v3 v4 v5 /\
    unsigned_decimal blockSize 4096 /\
    unsigned_decimal v1 0 /\
    unsigned_decimal v2 1 /\
    unsigned_decimal v3 2 /\
    unsigned_decimal v4 3 /\
    unsigned_decimal v5 UINT64_MAX.
Proof.
  apply (@C4_values_unsigned_decimal DemoLibrary "vdodumpconfig" ["--"; "/dev/sdb1"]
           true demo_store "/dev/sdb1" (mkVDO (mkVDOConfig 0 1 2 3 UINT64_MAX)) demo_store);
    [reflexivity|reflexivity|reflexivity| |cbn; unfold INT_MAX; lia].
  unfold wf_config, is_u64, UINT64_MAX. cbn. lia.
Defined.

Lemma C5_witness :
  run_trace (L := DemoLibrary) ["vdodumpconfig"; "/dev/sdb1"; "--he"; "-x"] false demo_store
    = [EvStdout helpString] /\
  run_stdout (L := DemoLibrary) ["vdodumpconfig"; "/dev/sdb1"; "--he"; "-x"] false demo_store
    = helpString /\
  run_status (L := DemoLibrary) ["vdodumpconfig"; "/dev/sdb1"; "--he"; "-x"] false demo_store
    = Some 0.
Proof.
  apply (@C5_help_recognized DemoLibrary "vdodumpconfig" ["/dev/sdb1"; "--he"; "-x"]
           false demo_store).
  reflexivity.
Defined.

Lemma C6_witness :
  exists report_writes,
    run_trace (L := DemoLibrary) ["vdodumpconfig"; "/dev/mapper/vdo0"] false demo_store =
      ([EvOpenLogger; EvMakeVDO "/dev/mapper/vdo0" true 0; EvReadVDO; EvFreeVDO]
         ++ report_writes)%list /\
    Forall (fun e => is_stdout e = true) report_writes /\
    List.length
      (filter is_free
         (run_trace (L := DemoLibrary) ["vdodumpconfig"; "/dev/mapper/vdo0"] false
            demo_store)) = 1%nat.
Proof.
  apply (@C6_copy_close_render DemoLibrary "vdodumpconfig" ["/dev/mapper/vdo0"] false
           demo_store "/dev/mapper/vdo0" true demo_success_sets_handle).
  right. left. reflexivity.
Defined.

(** C7 as stated fails: this command line contains the unrecognized
    [-x], yet the process exits with code 0 and writes nothing to standard
    error, [-h] being met first. *)
Lemma C7_counterexample :
  In "-x" ["vdodumpconfig"; "-h"; "-x"] /\
  run_status (L := DemoLibrary) ["vdodumpconfig"; "-h"; "-x"] false demo_store = Some 0 /\
  run_stderr (L := DemoLibrary) ["vdodumpconfig"; "-h"; "-x"] false demo_store
    = EmptyString.
Proof.
  split; [right; right; left; reflexivity|]. split; reflexivity.
Qed.

Lemma C7_witness :
  run_status (L := DemoLibrary) ["vdodumpconfig"; "--help=yes"; "/dev/sdb1"] false demo_store
    = Some 1 /\
  (exists diag,
     run_trace (L := DemoLibrary) ["vdodumpconfig"; "--help=yes"; "/dev/sdb1"] false
       demo_store = [EvStderr diag; EvStderr (usage_text "vdodumpconfig")] /\
     run_stderr (L := DemoLibrary) ["vdodumpconfig"; "--help=yes"; "/dev/sdb1"] false
       demo_store
       = diag ++ "vdodumpconfig: Usage: vdodumpconfig [--help] vdoBacking" ++ LF ++ LF) /\
  run_stdout (L := DemoLibrary) ["vdodumpconfig"; "--help=yes"; "/dev/sdb1"] false demo_store
    = EmptyString.
Proof.
  apply (@C7_unrecognized_met_first DemoLibrary "vdodumpconfig" ["--help=yes"; "/dev/sdb1"]
           false demo_store []).
  reflexivity.
Defined.

Lemma C8_witness :
  Forall opens_read_only
    (run_trace (L := DemoLibrary) ["vdodumpconfig"; "/dev/mapper/vdo0"] false demo_store) /\
  run_store (L := DemoLibrary) ["vdodumpconfig"; "/dev/mapper/vdo0"] false demo_store
    = demo_store.
Proof.
  exact (@C8_backing_store_untouched DemoLibrary "vdodumpconfig" ["/dev/mapper/vdo0"]
           false demo_store demo_read_only_contract).
Defined.

Lemma C9_witness :
  run_stdout (L := DemoLibrary) ["vdodumpconfig"; "/dev/mapper/vdo0"] false
    (run_store (L := DemoLibrary) ["vdodumpconfig"; "/dev/mapper/vdo0"] false demo_store)
  = run_stdout (L := DemoLibrary) ["vdodumpconfig"; "/dev/mapper/vdo0"] false demo_store /\
  run_status (L := DemoLibrary) ["vdodumpconfig"; "/dev/mapper/vdo0"] false
    (run_store (L := DemoLibrary) ["vdodumpconfig"; "/dev/mapper/vdo0"] false demo_store)
  = run_status (L := DemoLibrary) ["vdodumpconfig"; "/dev/mapper/vdo0"] false demo_store.
Proof.
  exact (proj1 (@C9_repeatable DemoLibrary "vdodumpconfig" ["/dev/mapper/vdo0"] false
                  demo_store demo_read_only_contract)).
Defined.

Lemma C10_witness :
  (run_status (L := DemoLibrary) ["vdodumpconfig"; "a"; "-xh"; "--help"] false demo_store
     = Some 1 /\
   run_stdout (L := DemoLibrary) ["vdodumpconfig"; "a"; "-xh"; "--help"] false demo_store
     = EmptyString) /\
  (run_stdout (L := DemoLibrary) ["vdodumpconfig"; "a"; "-h"; "b"; "-x"; "c"] false demo_store
     = helpString /\
   run_status (L := DemoLibrary) ["vdodumpconfig"; "a"; "-h"; "b"; "-x"; "c"] false demo_store
     = Some 0).
Proof.
  split.
  - apply (proj1 (@C10_first_flag_decides DemoLibrary "vdodumpconfig"
                    ["a"; "-xh"; "--help"] false demo_store)).
    exists [], [HelpFlag; HelpFlag]. split; [reflexivity|intros []].
  - apply (proj2 (@C10_first_flag_decides DemoLibrary "vdodumpconfig"
                    ["a"; "-h"; "b"; "-x"; "c"] false demo_store)).
    exists [], [UnrecognizedFlag]. split; [reflexivity|intros []].
Defined.

Lemma run_exits_zero_or_one_witness :
  run_status (L := DemoLibrary) ["vdodumpconfig"] true demo_store = Some 0 \/
  run_status (L := DemoLibrary) ["vdodumpconfig"] true demo_store = Some 1.
Proof.
  exact (@run_exits_zero_or_one DemoLibrary "vdodumpconfig" [] true demo_store
           demo_success_sets_handle).
Defined.

(* ================================================================== *)
(** * Further properties of the program *)

Section Further.

Context {L : VDOLibrary}.

(** [processArgs] from any state of the process, not only its start. *)
Lemma processArgs_anywhere (prog : string) (args : list string) (w : World) :
  processArgs (Z.of_nat (S (List.length args))) (prog :: args) w =
  let usage_line :=
    EvStderr (progname w ++ ": Usage: " ++ prog ++ " [--help] vdoBacking" ++ LF ++ LF) in
  match option_list (posixly_correct w) args with
  | HelpFlag :: _ => Exits 0 (add_event w (EvStdout helpString))
  | UnrecognizedFlag :: _ =>
      Exits 1 (add_event
                 (add_event w (EvStderr (first_diagnostic (posixly_correct w) (prog :: args))))
                 usage_line)
  | [] =>
      match positionals (posixly_correct w) args with
      | [path] => Returns path w
      | _ => Exits 1 (add_event w usage_line)
      end
  end.
Proof.
  cbn zeta. unfold processArgs. unfold bind at 1. rewrite processArgs_loop_turn.
  set (posix := posixly_correct w).
  change (getopt_internal (prog :: args) optionString options posix getopt_start)
    with (first_call posix (prog :: args)).
  unfold first_diagnostic.
  pose proof (first_call_spec posix prog args) as Hfirst.
  destruct (option_list posix args) as [|[|] fl].
  - destruct Hfirst as (Hret & Hdiag & Hprog & Hlen & Hskip).
    rewrite Hret, Hdiag. cbn zeta. cbn [Z.eqb Pos.eqb]. cbv beta iota.
    set (argv' := argv_after (first_call posix (prog :: args))) in *.
    set (d' := data_after (first_call posix (prog :: args))) in *.
    assert (Hcount : List.length (positionals posix args)
                     = (S (List.length args) - optind d')%nat).
    { rewrite <- Hskip, length_skipn, Hlen. reflexivity. }
    destruct (positionals posix args) as [|path [|path' rest]];
      cbn [List.length] in Hcount.
    + replace (Z.of_nat (optind d') =? Z.of_nat (S (List.length args)) - 1) with false
        by (symmetry; apply Z.eqb_neq; lia).
      cbn [negb]. unfold bind. now rewrite usage_exits, Hprog.
    + replace (Z.of_nat (optind d') =? Z.of_nat (S (List.length args)) - 1) with true
        by (symmetry; apply Z.eqb_eq; lia).
      destruct (skipn_cons_nth _ _ Hskip) as (_ & Hnth & _).
      cbn [negb]. unfold bind, ret. now rewrite Hnth.
    + replace (Z.of_nat (optind d') =? Z.of_nat (S (List.length args)) - 1) with false
        by (symmetry; apply Z.eqb_neq; lia).
      cbn [negb]. unfold bind. now rewrite usage_exits, Hprog.
  - destruct Hfirst as (Hret & Hargv & Hnone & _).
    rewrite Hret, (Hnone eq_refl). reflexivity.
  - destruct Hfirst as (Hret & Hargv & _ & Hsome).
    destruct (Hsome eq_refl) as (text & Htext).
    rewrite Hret, Hargv, Htext. reflexivity.
Qed.

(** X2: [processArgs] returns to its caller exactly when the command
    line has no flag and one positional argument; what it returns is
    that argument, wherever it stands relative to [--] (so also after
    [getopt_long] has permuted [argv]), and the process is left as it
    was: nothing has been written. *)
Theorem processArgs_returns_the_path (prog : string) (args : list string) (w w' : World)
    (path : string) :
  processArgs (Z.of_nat (S (List.length args))) (prog :: args) w = Returns path w' <->
  names_path (posixly_correct w) args path /\ w' = w.
Proof.
  rewrite processArgs_anywhere. cbn zeta. unfold names_path.
  destruct (option_list (posixly_correct w) args) as [|[|] fl].
  - destruct (positionals (posixly_correct w) args) as [|p [|p' rest]].
    + split; [discriminate|intros [[_ H] _]; discriminate H].
    + split.
      * intros H. inversion H. subst. auto.
      * intros [[_ H] ->]. now inversion H.
    + split; [discriminate|intros [[_ H] _]; discriminate H].
  - split; [discriminate|intros [[H _] _]; discriminate H].
  - split; [discriminate|intros [[H _] _]; discriminate H].
Qed.

Lemma append_not_empty (s t : string) : t <> EmptyString -> s ++ t <> EmptyString.
Proof. destruct s; cbn [append]; [auto|discriminate]. Qed.

Lemma usage_text_not_empty (prog : string) : usage_text prog <> EmptyString.
Proof. unfold usage_text. apply append_not_empty. discriminate. Qed.

Lemma load_failure_text_not_empty (prog path : string) :
  load_failure_text prog path <> EmptyString.
Proof. unfold load_failure_text. apply append_not_empty. discriminate. Qed.

Lemma stderr_of_stdout_only (t : list Event) :
  Forall (fun e => is_stdout e = true) t -> stderr_of t = EmptyString.
Proof.
  induction 1 as [|[] t Hx _ IH]; cbn [stderr_of]; try discriminate Hx; auto.
Qed.

Lemma stdout_of_report_not_empty (c : VDOConfig) :
  stdout_of (report_events c) <> EmptyString.
Proof. unfold report_events. cbn [stdout_of append]. discriminate. Qed.

(** X3: the two streams never mix.  A run that exits with code 0 has
    written to standard output and not a byte to standard error; a run
    that exits with code 1 has written a diagnostic to standard error and
    not a byte to standard output. *)
Theorem exit_code_tells_the_stream (prog : string) (args : list string) (posix : bool)
    (s : Store) :
  (run_status (prog :: args) posix s = Some 0 ->
   run_stderr (prog :: args) posix s = EmptyString /\
   run_stdout (prog :: args) posix s <> EmptyString) /\
  (run_status (prog :: args) posix s = Some 1 ->
   run_stdout (prog :: args) posix s = EmptyString /\
   run_stderr (prog :: args) posix s <> EmptyString).
Proof.
  unfold run_status, run_stderr, run_stdout, run_trace.
  rewrite run_spec. unfold run_result.
  destruct (option_list posix args) as [|[|] fl].
  - destruct (positionals posix args) as [|p [|p' rest]].
    + cbn. split; [discriminate|intros _]. split; [reflexivity|].
      rewrite append_empty_r. apply usage_text_not_empty.
    + destruct (makeVDOFromFile p true s) as [[result vdo] s'].
      destruct (result =? VDO_SUCCESS).
      * destruct vdo as [v|]; [|cbn; split; discriminate].
        cbn [final_world trace started exit_status].
        split; [intros _|discriminate].
        cbn [app stderr_of stdout_of].
        split; [|apply stdout_of_report_not_empty].
        apply stderr_of_stdout_only, is_stdout_report_events.
      * cbn. split; [discriminate|intros _]. split; [reflexivity|].
        rewrite append_empty_r. apply load_failure_text_not_empty.
    + cbn. split; [discriminate|intros _]. split; [reflexivity|].
      rewrite append_empty_r. apply usage_text_not_empty.
  - cbn [final_world trace started exit_status stdout_of stderr_of].
    split; [intros _|discriminate]. split; [reflexivity|].
    rewrite append_empty_r. unfold helpString. cbn [append]. discriminate.
  - cbn [final_world trace started exit_status stdout_of stderr_of].
    split; [discriminate|intros _]. split; [reflexivity|].
    apply append_not_empty. rewrite append_empty_r. apply usage_text_not_empty.
Qed.

(** X4: the exit code is 0 in two cases and no other: flag parsing
    recognizes the help flag, or the command line has no flag, names one
    path, and the volume at that path loads. *)
Theorem exit_zero_iff (prog : string) (args : list string) (posix : bool) (s : Store) :
  run_status (prog :: args) posix s = Some 0 <->
  recognizes_help posix (prog :: args) \/
  (exists path, names_path posix args path /\ loads path s).
Proof.
  rewrite recognizes_help_iff. unfold run_status, names_path, loads.
  rewrite run_spec. unfold run_result.
  destruct (option_list posix args) as [|[|] fl].
  - destruct (positionals posix args) as [|p [|p' rest]].
    + cbn. split; [discriminate|].
      intros [(r & H)|(path & [_ H] & _)]; discriminate H.
    + destruct (makeVDOFromFile p true s) as [[result vdo] s'] eqn:Hload.
      destruct (Z.eqb_spec result VDO_SUCCESS) as [->|Hne].
      * destruct vdo as [v|]; cbn [exit_status].
        -- split; [intros _|reflexivity]. right. exists p.
           split; [split; reflexivity|]. now exists v, s'.
        -- split; [discriminate|].
           intros [(r & H)|(path & [_ H] & (v & s2 & Hv))]; [discriminate H|].
           inversion H; subst path. rewrite Hload in Hv. discriminate Hv.
      * cbn [exit_status]. split; [discriminate|].
        intros [(r & H)|(path & [_ H] & (v & s2 & Hv))]; [discriminate H|].
        inversion H; subst path. rewrite Hload in Hv. inversion Hv. now contradiction Hne.
    + cbn. split; [discriminate|].
      intros [(r & H)|(path & [_ H] & _)]; discriminate H.
  - cbn. split; [intros _|reflexivity]. left. now exists fl.
  - cbn. split; [discriminate|].
    intros [(r & H)|(path & [H _] & _)]; discriminate H.
Qed.

(** X5: the logger is opened, and the volume library called, only for a
    command line that [processArgs] accepts (no flag, one path); on the
    help and usage paths neither happens.  Whenever the volume library is
    called, opening the logger is the first event of the run. *)
Theorem logger_and_library_need_a_path (prog : string) (args : list string) (posix : bool)
    (s : Store) :
  (In EvOpenLogger (run_trace (prog :: args) posix s) <->
   exists path, names_path posix args path) /\
  (existsb is_vdo_call (run_trace (prog :: args) posix s) = true ->
   exists rest, run_trace (prog :: args) posix s = EvOpenLogger :: rest).
Proof.
  unfold run_trace, names_path. rewrite run_spec. unfold run_result.
  destruct (option_list posix args) as [|[|] fl].
  - destruct (positionals posix args) as [|p [|p' rest]].
    + cbn. split; [|discriminate]. split.
      * intros [H|[]]. discriminate H.
      * intros (path & _ & H). discriminate H.
    + assert (Hp : exists path, [] = @nil Flag /\ [p] = [path]) by (now exists p).
      destruct (makeVDOFromFile p true s) as [[result vdo] s'].
      destruct (result =? VDO_SUCCESS); [destruct vdo as [v|]|];
        cbn [final_world trace started app];
        (split; [split; [intros _; exact Hp|intros _; now left]|intros _; eexists; reflexivity]).
    + cbn. split; [|discriminate]. split.
      * intros [H|[]]. discriminate H.
      * intros (path & _ & H). discriminate H.
  - cbn. split; [|discriminate]. split.
    + intros [H|[]]. discriminate H.
    + intros (path & H & _). discriminate H.
  - cbn. split; [|discriminate]. split.
    + intros [H|[H|[]]]; discriminate H.
    + intros (path & H & _). discriminate H.
Qed.

(** X6: a handle is read or freed only after a [makeVDOFromFile] that
    answered [VDO_SUCCESS] (after a failed load the program touches no
    handle), and no run calls [makeVDOFromFile] more than once: there is
    no retry. *)
Theorem no_handle_without_successful_load (prog : string) (args : list string)
    (posix : bool) (s : Store) :
  (In EvReadVDO (run_trace (prog :: args) posix s) \/
   In EvFreeVDO (run_trace (prog :: args) posix s) ->
   exists path rest,
     run_trace (prog :: args) posix s =
       EvOpenLogger :: EvMakeVDO path true VDO_SUCCESS :: rest) /\
  (List.length (filter is_make (run_trace (prog :: args) posix s)) <= 1)%nat.
Proof.
  unfold run_trace. rewrite run_spec. unfold run_result.
  destruct (option_list posix args) as [|[|] fl].
  - destruct (positionals posix args) as [|p [|p' rest]].
    + cbn. split; [|lia]. intros [[H|[]]|[H|[]]]; discriminate H.
    + destruct (makeVDOFromFile p true s) as [[result vdo] s'].
      destruct (Z.eqb_spec result VDO_SUCCESS) as [->|Hne]; [destruct vdo as [v|]|].
      * cbn [final_world trace started app]. split.
        -- intros _. eexists. eexists. reflexivity.
        -- cbn [filter is_make].
           rewrite (@filter_none _ is_stdout is_make _ (is_stdout_report_events (config v)));
             [cbn; lia|].
           intros [] Hx; (discriminate Hx || reflexivity).
      * cbn. split; [|lia]. intros [[H|[H|[]]]|[H|[H|[]]]]; discriminate H.
      * cbn. split; [|lia]. intros [[H|[H|[H|[]]]]|[H|[H|[H|[]]]]]; discriminate H.
    + cbn. split; [|lia]. intros [[H|[]]|[H|[]]]; discriminate H.
  - cbn. split; [|lia]. intros [[H|[]]|[H|[]]]; discriminate H.
  - cbn. split; [|lia]. intros [[H|[H|[]]]|[H|[H|[]]]]; discriminate H.
Qed.

Lemma help_run (prog : string) (args : list string) (posix : bool) (s : Store)
    (rest : list Flag) :
  option_list posix args = HelpFlag :: rest ->
  run_stdout (prog :: args) posix s = helpString /\
  run_status (prog :: args) posix s = Some 0.
Proof.
  intros H. unfold run_stdout, run_trace, run_status.
  rewrite (run_help_first prog _ _ s H).
  cbn [final_world trace started exit_status stdout_of].
  split; [apply append_empty_r|reflexivity].
Qed.

Lemma usage_run (prog : string) (args : list string) (posix : bool) (s : Store)
    (rest : list Flag) :
  option_list posix args = UnrecognizedFlag :: rest ->
  run_status (prog :: args) posix s = Some 1 /\
  run_stdout (prog :: args) posix s = EmptyString /\
  In (EvStderr (usage_text prog)) (run_trace (prog :: args) posix s).
Proof.
  intros H. unfold run_stdout, run_trace, run_status.
  rewrite (run_unrecognized_first prog _ _ s H).
  cbn [final_world trace started exit_status stdout_of].
  split; [reflexivity|]. split; [reflexivity|]. right. now left.
Qed.

(** X7: as the first option of a command line, [--help] and each of its
    abbreviations [--hel], [--he], [--h] give the help text and exit code
    0, whatever else is on the command line; [--help=value] does not: it
    is a usage error with exit code 1 and no help text. *)
Theorem long_help_spellings (prog : string) (rest : list string) (posix : bool) (s : Store) :
  (forall body, In body ["help"; "hel"; "he"; "h"] ->
     run_stdout (prog :: ("--" ++ body) :: rest) posix s = helpString /\
     run_status (prog :: ("--" ++ body) :: rest) posix s = Some 0) /\
  (forall value,
     run_status (prog :: ("--help=" ++ value) :: rest) posix s = Some 1 /\
     run_stdout (prog :: ("--help=" ++ value) :: rest) posix s = EmptyString /\
     In (EvStderr (usage_text prog))
       (run_trace (prog :: ("--help=" ++ value) :: rest) posix s)).
Proof.
  split.
  - intros body Hbody.
    apply help_run with (rest := option_list posix rest).
    cbn in Hbody. destruct Hbody as [<-|[<-|[<-|[<-|[]]]]]; reflexivity.
  - intros value. apply usage_run with (rest := option_list posix rest). reflexivity.
Qed.

(** X8: in a cluster of short options the first letter decides.  An
    element [-h...] gives the help text whatever follows the [h] ([-hx],
    and [-help] with one dash, too); an element that starts with any
    other letter is a usage error, also when an [h] follows in the
    cluster ([-xh]). *)
Theorem short_cluster_first_letter (prog : string) (c : ascii) (cluster : string)
    (rest : list string) (posix : bool) (s : Store) :
  c <> "-"%char ->
  (c = "h"%char ->
   run_stdout (prog :: String "-" (String c cluster) :: rest) posix s = helpString /\
   run_status (prog :: String "-" (String c cluster) :: rest) posix s = Some 0) /\
  (c <> "h"%char ->
   run_status (prog :: String "-" (String c cluster) :: rest) posix s = Some 1 /\
   run_stdout (prog :: String "-" (String c cluster) :: rest) posix s = EmptyString /\
   In (EvStderr (usage_text prog))
     (run_trace (prog :: String "-" (String c cluster) :: rest) posix s)).
Proof.
  intros Hdash.
  assert (Hlist : option_list posix (String "-" (String c cluster) :: rest)
                  = short_flag c :: (short_flags cluster ++ option_list posix rest)%list).
  { cbn [option_list NONOPTION_P element_flags short_flags String.eqb].
    destruct (Ascii.eqb_spec c "-") as [E|_]; [contradiction|]. reflexivity. }
  unfold short_flag in Hlist. split; intros Hc.
  - subst c. eapply help_run. exact Hlist.
  - apply Ascii.eqb_neq in Hc. rewrite Hc in Hlist. eapply usage_run. exact Hlist.
Qed.

(** The run of a command line that [processArgs] accepts, by what
    loading answers. *)
Lemma run_with_path (prog : string) (args : list string) (posix : bool) (s : Store)
    (path : string) :
  names_path posix args path ->
  exists rest,
    run_trace (prog :: args) posix s =
      EvOpenLogger
        :: EvMakeVDO path true (fst (fst (makeVDOFromFile path true s))) :: rest.
Proof.
  intros [Hflags Hpos]. unfold run_trace. rewrite run_spec. unfold run_result.
  rewrite Hflags, Hpos.
  destruct (makeVDOFromFile path true s) as [[result vdo] s'].
  destruct (result =? VDO_SUCCESS); [destruct vdo|]; eexists; reflexivity.
Qed.

(** X9: the program does not look at the path.  A single argument that
    is not an option (the empty string and the lone dash included), and
    whatever single argument follows the element [--] (also one that
    looks like a flag: [-h], [--help]), is handed to [makeVDOFromFile]
    byte for byte, read-only, right after the logger is opened. *)
Theorem path_handed_over_verbatim (prog path : string) (posix : bool) (s : Store) :
  (NONOPTION_P path = true ->
   exists rest,
     run_trace (prog :: [path]) posix s =
       EvOpenLogger
         :: EvMakeVDO path true (fst (fst (makeVDOFromFile path true s))) :: rest) /\
  (exists rest,
     run_trace (prog :: ["--"; path]) posix s =
       EvOpenLogger
         :: EvMakeVDO path true (fst (fst (makeVDOFromFile path true s))) :: rest).
Proof.
  split.
  - intros Hpath. pose proof (nonoption_not_dashdash _ Hpath) as Hdd.
    apply run_with_path. split.
    + cbn [option_list]. rewrite Hdd, Hpath. now destruct posix.
    + cbn [positionals]. rewrite Hdd, Hpath. now destruct posix.
  - apply run_with_path. split; reflexivity.
Qed.

(** X10: with [POSIXLY_CORRECT] set, [getopt_long] stops at the first
    non-option, so a flag that follows the backing path is not parsed: it
    counts as a second positional argument and the run is a usage error.
    Without it the same [-h] is found behind the path and help is
    printed. *)
Theorem posixly_correct_stops_at_the_path (prog a : string) (rest : list string)
    (s : Store) :
  NONOPTION_P a = true ->
  (rest <> [] ->
   run_status (prog :: a :: rest) true s = Some 1 /\
   run_trace (prog :: a :: rest) true s = [EvStderr (usage_text prog)]) /\
  (run_stdout (prog :: [a; "-h"]) false s = helpString /\
   run_status (prog :: [a; "-h"]) false s = Some 0).
Proof.
  intros Ha. pose proof (nonoption_not_dashdash _ Ha) as Hdd. split.
  - intros Hrest. unfold run_status, run_trace.
    rewrite (@run_wrong_count L prog (a :: rest) true s).
    + split; reflexivity.
    + cbn [option_list]. now rewrite Hdd, Ha.
    + cbn [positionals]. rewrite Hdd, Ha. destruct rest; [contradiction|discriminate].
  - apply help_run with (rest := []).
    cbn [option_list]. rewrite Hdd, Ha. reflexivity.
Qed.

Lemma append_cancel_l (s t t' : string) : s ++ t = s ++ t' -> t = t'.
Proof.
  induction s as [|a s IH]; cbn [append]; intros H; [exact H|].
  apply IH. now inversion H.
Qed.

(** Two numerals, each followed by a newline, that start the same text
    are the same numeral: a newline is no digit. *)
Lemma numerals_delimited (v : string) :
  forall v' r r', all_digits v = true -> all_digits v' = true ->
    v ++ LF ++ r = v' ++ LF ++ r' -> v = v' /\ r = r'.
Proof.
  induction v as [|d v IH]; intros [|d' v'] r r' Hv Hv' H.
  - split; [reflexivity|]. do 2 apply append_cancel_l in H. exact H.
  - exfalso. cbn [append LF] in H. cbn [all_digits] in Hv'.
    apply andb_prop in Hv'. destruct Hv' as [Hd' _].
    injection H as Hc _. rewrite <- Hc in Hd'. discriminate Hd'.
  - exfalso. cbn [append LF] in H. cbn [all_digits] in Hv.
    apply andb_prop in Hv. destruct Hv as [Hd _].
    injection H as Hc _. rewrite Hc in Hd. discriminate Hd.
  - cbn [append] in H. cbn [all_digits] in Hv, Hv'.
    apply andb_prop in Hv, Hv'. destruct Hv as [_ Hv], Hv' as [_ Hv'].
    injection H as Hd Hrest.
    destruct (IH v' r r' Hv Hv' Hrest) as [-> ->]. now subst d'.
Qed.

Lemma fmt_u64_same (a b : Z) : is_u64 a -> is_u64 b -> fmt_u64 a = fmt_u64 b -> a = b.
Proof.
  intros Ha Hb E.
  destruct (fmt_u64_numeral Ha) as (_ & _ & _ & Va).
  destruct (fmt_u64_numeral Hb) as (_ & _ & _ & Vb).
  rewrite E in Va. congruence.
Qed.

Lemma fmt_u64_digits (a : Z) : is_u64 a -> all_digits (fmt_u64 a) = true.
Proof. intros Ha. now destruct (fmt_u64_numeral Ha) as (_ & H & _). Qed.

(** The text of the report determines the configuration. *)
Lemma report_events_same (c c' : VDOConfig) :
  wf_config c -> wf_config c' ->
  stdout_of (report_events c) = stdout_of (report_events c') -> c = c'.
Proof.
  intros (H1 & H2 & H3 & H4 & H5) (H1' & H2' & H3' & H4' & H5') H.
  unfold report_events in H. cbn [stdout_of] in H.
  rewrite !append_assoc in H.
  do 5 apply append_cancel_l in H.
  apply append_cancel_l in H.
  apply numerals_delimited in H; try now apply fmt_u64_digits.
  destruct H as [E1 H]. apply append_cancel_l in H.
  apply numerals_delimited in H; try now apply fmt_u64_digits.
  destruct H as [E2 H]. apply append_cancel_l in H.
  apply numerals_delimited in H; try now apply fmt_u64_digits.
  destruct H as [E3 H]. apply append_cancel_l in H.
  apply numerals_delimited in H; try now apply fmt_u64_digits.
  destruct H as [E4 H]. apply append_cancel_l in H.
  apply numerals_delimited in H; try now apply fmt_u64_digits.
  destruct H as [E5 _].
  apply fmt_u64_same in E1, E2, E3, E4, E5; try assumption.
  destruct c, c'. cbn in *. congruence.
Qed.

(** X11: the report identifies the configuration.  If two runs on valid
    volumes, of configurations whose fields are 64-bit values, write the
    same bytes to standard output, the two configurations are equal in
    all five fields: no two different configurations print alike. *)
Theorem report_identifies_configuration
    (prog1 prog2 : string) (args1 args2 : list string) (posix1 posix2 : bool)
    (s1 s2 : Store) (path1 path2 : string) (vdo1 vdo2 : VDO) (s1' s2' : Store) :
  names_path posix1 args1 path1 ->
  names_path posix2 args2 path2 ->
  makeVDOFromFile path1 true s1 = ((VDO_SUCCESS, Some vdo1), s1') ->
  makeVDOFromFile path2 true s2 = ((VDO_SUCCESS, Some vdo2), s2') ->
  wf_config (config vdo1) -> wf_config (config vdo2) ->
  run_stdout (prog1 :: args1) posix1 s1 = run_stdout (prog2 :: args2) posix2 s2 ->
  config vdo1 = config vdo2.
Proof.
  intros [Hf1 Hp1] [Hf2 Hp2] Hl1 Hl2 Hwf1 Hwf2. unfold run_stdout, run_trace.
  rewrite (run_valid_volume prog1 _ _ _ Hf1 Hp1 Hl1).
  rewrite (run_valid_volume prog2 _ _ _ Hf2 Hp2 Hl2).
  cbn [final_world trace started app stdout_of].
  now apply report_events_same.
Qed.

(** X12: standard output is all or nothing.  Whatever the command line
    and the volume, what a run has written to standard output is nothing,
    or the whole help text, or a whole report of six field lines: never a
    part of one, and never two of them. *)
Theorem stdout_is_all_or_nothing (prog : string) (args : list string) (posix : bool)
    (s : Store) :
  run_stdout (prog :: args) posix s = EmptyString \/
  run_stdout (prog :: args) posix s = helpString \/
  (exists c,
     run_stdout (prog :: args) posix s =
       report (fmt_d VDO_BLOCK_SIZE)
         (fmt_u64 (logicalBlocks c)) (fmt_u64 (physicalBlocks c)) (fmt_u64 (slabSize c))
         (fmt_u64 (recoveryJournalSize c)) (fmt_u64 (slabJournalBlocks c))).
Proof.
  unfold run_stdout, run_trace. rewrite run_spec. unfold run_result.
  destruct (option_list posix args) as [|[|] fl].
  - destruct (positionals posix args) as [|p [|p' rest]]; [now left| |now left].
    destruct (makeVDOFromFile p true s) as [[result vdo] s'].
    destruct (result =? VDO_SUCCESS); [|now left].
    destruct vdo as [v|]; [|now left].
    right. right. exists (config v).
    cbn [final_world trace started app stdout_of]. apply stdout_of_report_events.
  - right. left. cbn [final_world trace started stdout_of]. apply append_empty_r.
  - now left.
Qed.

(** A run that does not reach [readVDOConfig] exits with a code and a
    trace that do not depend on the backing stores. *)
Lemma run_without_path (prog : string) (args : list string) (posix : bool) :
  (forall path, ~ names_path posix args path) ->
  exists status t,
    existsb is_vdo_call t = false /\
    forall s, run (prog :: args) posix s = Exits status (started prog posix s t).
Proof.
  intros Hnone. unfold names_path in Hnone.
  destruct (option_list posix args) as [|[|] fl] eqn:Hflags.
  - destruct (positionals posix args) as [|p [|p' rest]] eqn:Hpos.
    + exists 1, [EvStderr (usage_text prog)]. split; [reflexivity|]. intros s.
      rewrite run_spec. unfold run_result. now rewrite Hflags, Hpos.
    + exfalso. apply (Hnone p). now split.
    + exists 1, [EvStderr (usage_text prog)]. split; [reflexivity|]. intros s.
      rewrite run_spec. unfold run_result. now rewrite Hflags, Hpos.
  - exists 0, [EvStdout helpString]. split; [reflexivity|]. intros s.
    rewrite run_spec. unfold run_result. now rewrite Hflags.
  - exists 1, [EvStderr (first_diagnostic posix (prog :: args)); EvStderr (usage_text prog)].
    split; [reflexivity|]. intros s.
    rewrite run_spec. unfold run_result. now rewrite Hflags.
Qed.

(** X13: a command line that names no path (a flag comes first, or the
    positional arguments are none or several) never reaches the volume
    library: the backing stores are left as they are, on no assumption
    about the library, and the run is the same whatever they hold. *)
Theorem without_a_path_the_store_is_not_consulted (prog : string) (args : list string)
    (posix : bool) (s : Store) :
  (forall path, ~ names_path posix args path) ->
  run_store (prog :: args) posix s = s /\
  existsb is_vdo_call (run_trace (prog :: args) posix s) = false /\
  (forall s2,
     run_trace (prog :: args) posix s2 = run_trace (prog :: args) posix s /\
     run_status (prog :: args) posix s2 = run_status (prog :: args) posix s).
Proof.
  intros Hnone. destruct (run_without_path prog Hnone) as (status & t & Hcalls & Hrun).
  unfold run_store, run_trace, run_status.
  split; [|split].
  - now rewrite Hrun.
  - now rewrite Hrun.
  - intros s2. rewrite !Hrun. split; reflexivity.
Qed.

End Further.

(* ================================================================== *)
(** * The further properties on concrete command lines *)

Lemma processArgs_returns_the_path_witness :
  processArgs (L := DemoLibrary) 3 ["vdodumpconfig"; "/dev/sdb1"; "--"]
    (start (L := DemoLibrary) ["vdodumpconfig"; "/dev/sdb1"; "--"] false demo_store)
  = Returns "/dev/sdb1" (start (L := DemoLibrary) ["vdodumpconfig"; "/dev/sdb1"; "--"] false demo_store).
Proof.
  apply (proj2 (@processArgs_returns_the_path DemoLibrary "vdodumpconfig" ["/dev/sdb1"; "--"]
                  (start (L := DemoLibrary) ["vdodumpconfig"; "/dev/sdb1"; "--"] false demo_store)
                  (start (L := DemoLibrary) ["vdodumpconfig"; "/dev/sdb1"; "--"] false demo_store)
                  "/dev/sdb1")).
  split; [split; reflexivity|reflexivity].
Defined.

Lemma exit_code_tells_the_stream_witness :
  (run_stderr (L := DemoLibrary) ["vdodumpconfig"; "/dev/sdb1"] false demo_store
     = EmptyString /\
   run_stdout (L := DemoLibrary) ["vdodumpconfig"; "/dev/sdb1"] false demo_store
     <> EmptyString) /\
  (run_stdout (L := DemoLibrary) ["vdodumpconfig"; "/dev/null"] false demo_store
     = EmptyString /\
   run_stderr (L := DemoLibrary) ["vdodumpconfig"; "/dev/null"] false demo_store
     <> EmptyString).
Proof.
  split.
  - apply (proj1 (@exit_code_tells_the_stream DemoLibrary "vdodumpconfig" ["/dev/sdb1"]
                    false demo_store)).
    reflexivity.
  - apply (proj2 (@exit_code_tells_the_stream DemoLibrary "vdodumpconfig" ["/dev/null"]
                    false demo_store)).
    reflexivity.
Defined.

Lemma exit_zero_iff_witness :
  run_status (L := DemoLibrary) ["vdodumpconfig"; "--"; "/dev/sdb1"] true demo_store
  = Some 0.
Proof.
  apply (proj2 (@exit_zero_iff DemoLibrary "vdodumpconfig" ["--"; "/dev/sdb1"] true
                  demo_store)).
  right. exists "/dev/sdb1". split; [split; reflexivity|].
  exists (mkVDO (mkVDOConfig 0 1 2 3 UINT64_MAX)). eexists. reflexivity.
Defined.

Lemma logger_and_library_need_a_path_witness :
  In EvOpenLogger
    (run_trace (L := DemoLibrary) ["vdodumpconfig"; "/dev/null"] false demo_store) /\
  (exists rest,
     run_trace (L := DemoLibrary) ["vdodumpconfig"; "/dev/null"] false demo_store
     = EvOpenLogger :: rest).
Proof.
  split.
  - apply (proj2 (proj1 (@logger_and_library_need_a_path DemoLibrary "vdodumpconfig"
                           ["/dev/null"] false demo_store))).
    exists "/dev/null". split; reflexivity.
  - apply (proj2 (@logger_and_library_need_a_path DemoLibrary "vdodumpconfig"
                    ["/dev/null"] false demo_store)).
    reflexivity.
Defined.

Lemma no_handle_without_successful_load_witness :
  exists path rest,
    run_trace (L := DemoLibrary) ["vdodumpconfig"; "/dev/sdb1"] false demo_store
    = EvOpenLogger :: EvMakeVDO path true 0 :: rest.
Proof.
  apply (proj1 (@no_handle_without_successful_load DemoLibrary "vdodumpconfig"
                  ["/dev/sdb1"] false demo_store)).
  right. right. right. right. left. reflexivity.
Defined.

Lemma long_help_spellings_witness :
  run_stdout (L := DemoLibrary) ["vdodumpconfig"; "--he"; "/dev/sdb1"; "-x"] true demo_store
    = helpString /\
  run_status (L := DemoLibrary) ["vdodumpconfig"; "--he"; "/dev/sdb1"; "-x"] true demo_store
    = Some 0.
Proof.
  apply (proj1 (@long_help_spellings DemoLibrary "vdodumpconfig" ["/dev/sdb1"; "-x"] true
                  demo_store) "he").
  right. right. left. reflexivity.
Defined.

Lemma short_cluster_first_letter_witness :
  run_stdout (L := DemoLibrary) ["vdodumpconfig"; "-help"] false demo_store = helpString /\
  run_status (L := DemoLibrary) ["vdodumpconfig"; "-help"] false demo_store = Some 0.
Proof.
  apply (proj1 (@short_cluster_first_letter DemoLibrary "vdodumpconfig" "h" "elp" []
                  false demo_store ltac:(discriminate))).
  reflexivity.
Defined.

Lemma path_handed_over_verbatim_witness :
  exists rest,
    run_trace (L := DemoLibrary) ["vdodumpconfig"; "-"] false demo_store
    = EvOpenLogger :: EvMakeVDO "-" true 2 :: rest.
Proof.
  apply (proj1 (@path_handed_over_verbatim DemoLibrary "vdodumpconfig" "-" false demo_store)).
  reflexivity.
Defined.

Lemma posixly_correct_stops_at_the_path_witness :
  run_status (L := DemoLibrary) ["vdodumpconfig"; "/dev/sdb1"; "-h"] true demo_store
    = Some 1 /\
  run_trace (L := DemoLibrary) ["vdodumpconfig"; "/dev/sdb1"; "-h"] true demo_store
    = [EvStderr (usage_text "vdodumpconfig")].
Proof.
  apply (proj1 (@posixly_correct_stops_at_the_path DemoLibrary "vdodumpconfig" "/dev/sdb1"
                  ["-h"] demo_store eq_refl)).
  discriminate.
Defined.

Lemma report_identifies_configuration_witness :
  config (mkVDO demo_config) = config (mkVDO demo_config).
Proof.
  apply (@report_identifies_configuration DemoLibrary
           "vdodumpconfig" "/usr/bin/vdodumpconfig"
           ["/dev/mapper/vdo0"] ["--"; "/dev/mapper/vdo0"] false true
           demo_store demo_store "/dev/mapper/vdo0" "/dev/mapper/vdo0"
           (mkVDO demo_config) (mkVDO demo_config) demo_store demo_store).
  - split; reflexivity.
  - split; reflexivity.
  - reflexivity.
  - reflexivity.
  - unfold wf_config, is_u64, UINT64_MAX. cbn. lia.
  - unfold wf_config, is_u64, UINT64_MAX. cbn. lia.
  - reflexivity.
Defined.

Lemma without_a_path_the_store_is_not_consulted_witness :
  run_store (L := DemoLibrary) ["vdodumpconfig"; "-x"; "/dev/sdb1"] false demo_store
    = demo_store /\
  existsb is_vdo_call
    (run_trace (L := DemoLibrary) ["vdodumpconfig"; "-x"; "/dev/sdb1"] false demo_store)
    = false.
Proof.
  assert (Hnone : forall path, ~ names_path false ["-x"; "/dev/sdb1"] path)
    by (intros path [H _]; discriminate H).
  destruct (@without_a_path_the_store_is_not_consulted DemoLibrary "vdodumpconfig"
              ["-x"; "/dev/sdb1"] false demo_store Hnone) as (H1 & H2 & _).
  split; assumption.
Defined.
